(** * search_allergy: the crawl-and-classify engine of [index.js]

    A shallow embedding of the functions of [src/index.js] that fetch
    pages, classify links as allergen PDFs, discover URLs and orchestrate
    one crawl run, together with the properties of the specification that
    are settled against them.

    Conventions of the model.
    - A JavaScript string is represented by the bytes of its UTF-8
      encoding ([string]).  Substring search on well-formed UTF-8 agrees
      with substring search on code points.
    - The platform (network, URL resolution, HTML and XML parsing, the
      headless browser, the robots.txt parser) is a record of oracles, a
      parameter of every function that uses it.
    - Effects are threaded through a state-and-exception monad whose state
      holds the process-wide robots cache and a trace of events.  Timers
      ([setTimeout]) and console output are not part of the model: one
      process, one call at a time, requests issued in program order. *)

From Stdlib Require Import Ascii String List Bool Arith Lia.
From stdpp Require Import base strings gmap list.

Local Open Scope string_scope.
Local Open Scope nat_scope.
Local Open Scope list_scope.

(** ** JavaScript string operations on the UTF-8 representation *)

Module JsString.

(** [String.prototype.toLowerCase] restricted to the letters A-Z.  Every
    string it is applied to in [index.js] is either a serialised URL
    (ASCII only) or is compared against ASCII or caseless text. *)
Definition lower_ascii (c : ascii) : ascii :=
  let n := nat_of_ascii c in
  if (65 <=? n) && (n <=? 90) then ascii_of_nat (n + 32) else c.

Fixpoint toLowerCase (s : string) : string :=
  match s with
  | EmptyString => EmptyString
  | String c r => String (lower_ascii c) (toLowerCase r)
  end.

(** [s.startsWith(p)] *)
Fixpoint startsWith (p s : string) : bool :=
  match p, s with
  | EmptyString, _ => true
  | String a p', String b s' => if Ascii.eqb a b then startsWith p' s' else false
  | String _ _, EmptyString => false
  end.

(** [s.includes(p)] *)
Fixpoint includes (p s : string) : bool :=
  startsWith p s ||
  match s with
  | EmptyString => false
  | String _ s' => includes p s'
  end.

(** [s.endsWith(p)] *)
Fixpoint endsWith (p s : string) : bool :=
  String.eqb p s ||
  match s with
  | EmptyString => false
  | String _ s' => endsWith p s'
  end.

(** [new RegExp(keyword, 'i').test(s)] for a keyword without regular
    expression metacharacters: a case-insensitive substring search.
    Without the [u] flag the [i] flag folds the letters A-Z/a-z among
    themselves and never identifies an ASCII character with a non-ASCII
    one, and the non-ASCII keywords of this program are caseless. *)
Definition regexp_test_i (keyword s : string) : bool :=
  includes (toLowerCase keyword) (toLowerCase s).

(** Truthiness of a string: only the empty string is falsy. *)
Definition truthy (s : string) : bool :=
  match s with EmptyString => false | _ => true end.

(** The white space that [String.prototype.trim] removes
    (WhiteSpace and LineTerminator of ECMAScript), in UTF-8. *)
Definition b (n : nat) : ascii := ascii_of_nat n.
Definition s1 (x : nat) : string := String (b x) EmptyString.
Definition s2 (x y : nat) : string := String (b x) (s1 y).
Definition s3 (x y z : nat) : string := String (b x) (s2 y z).

Definition whiteSpace : list string :=
  [ s1 9; s1 10; s1 11; s1 12; s1 13; s1 32;
    s2 194 160;                                   (* U+00A0 *)
    s3 225 154 128;                               (* U+1680 *)
    s3 226 128 128; s3 226 128 129; s3 226 128 130; s3 226 128 131;
    s3 226 128 132; s3 226 128 133; s3 226 128 134; s3 226 128 135;
    s3 226 128 136; s3 226 128 137; s3 226 128 138; (* U+2000..U+200A *)
    s3 226 128 168; s3 226 128 169;               (* U+2028, U+2029 *)
    s3 226 128 175;                               (* U+202F *)
    s3 226 129 159;                               (* U+205F *)
    s3 227 128 128;                               (* U+3000 *)
    s3 239 187 191 ].                             (* U+FEFF *)

Fixpoint drop_string (n : nat) (s : string) : string :=
  match n, s with
  | S n', String _ r => drop_string n' r
  | _, _ => s
  end.

(** Removes one leading white-space character, if there is one. *)
Definition stripLeading1 (s : string) : option string :=
  match List.find (fun w => startsWith w s) whiteSpace with
  | Some w => Some (drop_string (String.length w) s)
  | None => None
  end.

Fixpoint trimStart_fuel (fuel : nat) (s : string) : string :=
  match fuel with
  | 0 => s
  | S f => match stripLeading1 s with
           | Some r => trimStart_fuel f r
           | None => s
           end
  end.

Definition trimStart (s : string) : string := trimStart_fuel (String.length s) s.

Fixpoint rev_string_acc (s acc : string) : string :=
  match s with
  | EmptyString => acc
  | String c r => rev_string_acc r (String c acc)
  end.
Definition rev_string (s : string) : string := rev_string_acc s EmptyString.

Definition stripTrailing1 (r : string) : option string :=
  match List.find (fun w => startsWith (rev_string w) r) whiteSpace with
  | Some w => Some (drop_string (String.length w) r)
  | None => None
  end.

Fixpoint trimEnd_fuel (fuel : nat) (r : string) : string :=
  match fuel with
  | 0 => r
  | S f => match stripTrailing1 r with
           | Some r' => trimEnd_fuel f r'
           | None => r
           end
  end.

Definition trimEnd (s : string) : string :=
  rev_string (trimEnd_fuel (String.length s) (rev_string s)).

(** [s.trim()] *)
Definition trim (s : string) : string := trimEnd (trimStart s).

End JsString.

(** ** Data model *)

(** A value found in the parsed sitemap at [item.loc[0]].  xml2js turns a
    text-only element into its string and an element that carries
    attributes into an object; indexing an empty array gives
    [undefined].  Objects are compared by identity ([id]). *)
Inductive JsVal :=
| JStr (s : string)
| JObj (id : nat)
| JUndefined.

#[global] Instance JsVal_eq_dec : EqDecision JsVal.
Proof. solve_decision. Defined.

#[global] Instance JsVal_countable : Countable JsVal.
Proof.
  refine (inj_countable'
            (fun v => match v with
                      | JStr s => inl s
                      | JObj n => inr (Some n)
                      | JUndefined => inr None
                      end)
            (fun x => match x with
                      | inl s => JStr s
                      | inr (Some n) => JObj n
                      | inr None => JUndefined
                      end) _).
  intros []; reflexivity.
Defined.

(** The element of [pagePdfLinks]: [{ url, text, source }]. *)
Record PdfHit := { url : string; text : string; source : string }.

(** An [a] element as cheerio exposes it: [attr('href')] and [text()]. *)
Record Anchor := { attr_href : option string; textContent : string }.

(** An entry of the array built by [page.evaluate]: [{ href, text }]. *)
Record Link := { href : string; link_text : string }.

(** The object returned by [robotsParser]; [isAllowed(url, ua)] answers
    [true], [false] or [undefined] (a URL of another origin). *)
Record Robots := { isAllowed : string -> string -> option bool }.

(** What [fetch] resolves to, with the body that [text()] yields. *)
Record Response := { ok : bool; body : string }.

(** [item] of [result.urlset.url]: [item.loc] is an array or absent. *)
Record UrlEntry := { loc : option (list JsVal) }.

(** The xml2js result, as far as [getSitemapUrls] looks into it:
    the value of [result.urlset && result.urlset.url] when it is truthy. *)
Record XmlResult := { urlset_url : option (list UrlEntry) }.

(** What a call of [browser.close()] does: it resolves, or it rejects
    with an error (the browser process is gone, the connection is
    lost). *)
Inductive CloseOutcome :=
| CloseResolves
| CloseRejects (err : string).

(** What happens when a page is rendered by puppeteer.  [launch] rejects
    (line 127); or [newPage] rejects (line 128); or [goto] or [evaluate]
    rejects after the navigation was started (lines 131 and 134:
    time-out, crash, navigation error); or [evaluate] returns the links.
    Once a browser exists it is closed, and each outcome says what the
    calls of [browser.close()] do: [close] is the first call (line 182
    after a rendering, line 186 after a failure), [close_again] the call
    of line 186 that follows a rejected call of line 182. *)
Inductive RenderOutcome :=
| LaunchFails
| NewPageFails (close : CloseOutcome)
| PageFails (close : CloseOutcome)
| Rendered (links : list Link) (close close_again : CloseOutcome).

(** The platform and the libraries [index.js] imports. *)
Record Platform := {
  (** [new URL(input, base).href]; [None] when the constructor throws *)
  URL_href : string -> string -> option string;
  (** [fetch(url)] followed by [text()]; [None] when either rejects *)
  http : string -> option Response;
  (** [robotsParser(robotsUrl, robotsTxt)] *)
  robotsParser : string -> string -> Robots;
  (** the elements selected by [$('a')] after [cheerio.load(html)] *)
  cheerio_a : string -> list Anchor;
  (** [parser.parseStringPromise(xml)]; [None] when it rejects or the
      result is [null] (reading [result.urlset] then throws) *)
  parseStringPromise : string -> option XmlResult;
  (** launching puppeteer and rendering the page at a URL *)
  puppeteer : string -> RenderOutcome
}.

(** ** Effects *)

Inductive Phase := SeedPhase | SitemapPhase | SubpagePhase.

#[global] Instance Phase_eq_dec : EqDecision Phase.
Proof. solve_decision. Defined.

(** What a request is made for: the call site of [fetch]. *)
Inductive Purpose := RobotsTxt | Page | Sitemap.

#[global] Instance Purpose_eq_dec : EqDecision Purpose.
Proof. solve_decision. Defined.

(** What the process does to the outside world, in order. *)
Inductive Event :=
| EvFetch (why : Purpose) (u : string) (* a request was issued by [fetch] *)
| EvLaunch                           (* [puppeteer.launch] resolved *)
| EvGoto (u : string)                (* the browser was sent to [u] by [page.goto] *)
| EvClose                            (* [browser.close()] resolved *)
| EvCloseRejected                    (* [browser.close()] rejected *)
| EvBatch (batch : list string)      (* a batch was sliced off, line 258 *)
| EvStart (u : string)               (* a batch worker was created *)
| EvSettle (u : string).             (* a batch worker settled *)

(** The state of the process: the module-level [robotsCache], the trace,
    and three ghost fields that observe [findAllergyPDFs]: the value of
    its local [visitedUrls] after each [add], the list handed to the
    scanner of each phase, and the argument of every [pdfLinks.push]. *)
Record State := {
  robotsCache : gmap string Robots;
  trace : list Event;
  visitedHistory : list (gset JsVal);
  dispatched : list (Phase * list JsVal);
  gathered : list PdfHit
}.

Definition initial : State :=
  {| robotsCache := ∅; trace := []; visitedHistory := []; dispatched := []; gathered := [] |}.

Inductive Outcome (A : Type) :=
| Return (a : A)
| Throw (message : string)
| Diverge.                           (* the call never settles *)
Arguments Return {A} a.
Arguments Throw {A} message.
Arguments Diverge {A}.

(** An [async function]: it runs from a state to an outcome and a state. *)
Definition M (A : Type) : Type := State -> Outcome A * State.

Definition ret {A} (a : A) : M A := fun st => (Return a, st).

Definition bind {A B} (m : M A) (k : A -> M B) : M B :=
  fun st => match m st with
            | (Return a, st') => k a st'
            | (Throw e, st') => (Throw e, st')
            | (Diverge, st') => (Diverge, st')
            end.

Definition throw {A} (e : string) : M A := fun st => (Throw e, st).

(** [try { body } catch (err) { handler }] *)
Definition try_catch {A} (body : M A) (handler : string -> M A) : M A :=
  fun st => match body st with
            | (Return a, st') => (Return a, st')
            | (Throw e, st') => handler e st'
            | (Diverge, st') => (Diverge, st')
            end.

Definition emit (ev : Event) : M unit :=
  fun st => (Return tt,
             {| robotsCache := robotsCache st; trace := trace st ++ [ev];
                visitedHistory := visitedHistory st; dispatched := dispatched st;
                gathered := gathered st |}).

Definition robotsCache_set (k : string) (v : Robots) : M unit :=
  fun st => (Return tt,
             {| robotsCache := <[k:=v]> (robotsCache st); trace := trace st;
                visitedHistory := visitedHistory st; dispatched := dispatched st;
                gathered := gathered st |}).

Definition ghost_visited (visitedUrls : gset JsVal) : M unit :=
  fun st => (Return tt,
             {| robotsCache := robotsCache st; trace := trace st;
                visitedHistory := visitedHistory st ++ [visitedUrls];
                dispatched := dispatched st; gathered := gathered st |}).

Definition ghost_dispatch (p : Phase) (urls : list JsVal) : M unit :=
  fun st => (Return tt,
             {| robotsCache := robotsCache st; trace := trace st;
                visitedHistory := visitedHistory st;
                dispatched := dispatched st ++ [(p, urls)]; gathered := gathered st |}).

Definition ghost_push (pdfs : list PdfHit) : M unit :=
  fun st => (Return tt,
             {| robotsCache := robotsCache st; trace := trace st;
                visitedHistory := visitedHistory st; dispatched := dispatched st;
                gathered := gathered st ++ pdfs |}).

#[global] Instance M_ret : MRet M := @ret.
#[global] Instance M_bind : MBind M := fun A B k m => bind m k.

(** [for (const x of xs) { acc = body(acc, x) }] with an awaited body. *)
Fixpoint for_of {A B} (body : B -> A -> M B) (xs : list A) (acc : B) : M B :=
  match xs with
  | [] => ret acc
  | x :: xs' => acc' ← body acc x; for_of body xs' acc'
  end.

(** [await Promise.all(xs.map(f))]: the workers are issued in index order
    and the results come back in the order of [xs]. *)
Fixpoint Promise_all_map {A B} (f : A -> M B) (xs : list A) : M (list B) :=
  match xs with
  | [] => ret []
  | x :: xs' => y ← f x; ys ← Promise_all_map f xs'; ret (y :: ys)
  end.

(** ** The functions of [index.js] *)

Import JsString.

(** [isAllowedByRobots(robots, url)], lines 57-60; the answer of
    [robots.isAllowed] is only ever used for its truthiness. *)
Definition isAllowedByRobots (robots : option Robots) (u : string) : bool :=
  match robots with
  | None => true
  | Some r => match isAllowed r u "CustomBot" with
              | Some answer => answer
              | None => false
              end
  end.

(** Truthiness of [robots]: an object, or [null]. *)
Definition truthy_robots (robots : option Robots) : bool :=
  match robots with Some _ => true | None => false end.

(** The keyword arrays of lines 85-89 and 152-156. *)
Definition ALLERGY_KEYWORDS : list string :=
  [ "allergy"; "アレルギー"; "allergen"; "pictogram";
    "特定原材料"; "原料"; "成分"; "含まれる"; "allergen";
    "ingredient"; "ingredients" ].

Definition ALLERGY_KEYWORDS_JS : list string :=
  [ "allergy"; "アレルギー"; "allergen"; "pictogram";
    "特定原材料"; "原料"; "成分"; "含まれる";
    "ingredient"; "ingredients" ].

(** [fullUrl.toLowerCase().endsWith('.pdf')] *)
Definition isPDF (fullUrl : string) : bool :=
  endsWith ".pdf" (toLowerCase fullUrl).

(** [KEYWORDS.some(keyword => new RegExp(keyword, 'i').test(fullUrl) ||
    new RegExp(keyword, 'i').test(linkText))] *)
Definition isAllergyKeyword (keywords : list string) (fullUrl linkText : string) : bool :=
  existsb (fun keyword => regexp_test_i keyword fullUrl || regexp_test_i keyword linkText)
          keywords.

(** The test of line 96 (and 168): what the link classifier decides for a
    candidate [{ absoluteUrl, visibleText }]. *)
Definition qualifies (fullUrl linkText : string) : bool :=
  isPDF fullUrl && isAllergyKeyword ALLERGY_KEYWORDS fullUrl linkText.

#[global] Arguments isPDF : simpl never.
#[global] Arguments isAllergyKeyword : simpl never.
#[global] Arguments trim : simpl never.

Section Crawler.

Context (P : Platform).

(** Lines 80-107 (and 159-179): resolve, classify, re-check robots on
    the target and push. *)
Definition push_link (keywords : list string) (pageUrl : string) (robots : option Robots)
    (pagePdfLinks : list PdfHit) (href linkText : string) : list PdfHit :=
  match URL_href P href pageUrl with
  | None => pagePdfLinks                     (* catch (e) { } *)
  | Some fullUrl =>
      if isPDF fullUrl && isAllergyKeyword keywords fullUrl linkText then
        if truthy_robots robots && isAllowedByRobots robots fullUrl then
          pagePdfLinks ++
            [ {| url := fullUrl;
                 text := if truthy linkText then linkText else "PDF";
                 source := pageUrl |} ]
        else pagePdfLinks
      else pagePdfLinks
  end.

(** The callback of [$('a').each], lines 75-108. *)
Definition each_a (pageUrl : string) (robots : option Robots)
    (pagePdfLinks : list PdfHit) (element : Anchor) : list PdfHit :=
  match attr_href element with
  | None => pagePdfLinks                     (* if (!href) return *)
  | Some href =>
      let linkText := trim (textContent element) in
      if negb (truthy href) then pagePdfLinks
      else push_link ALLERGY_KEYWORDS pageUrl robots pagePdfLinks href linkText
  end.

(** [await fetch(url)] and [await response.text()] *)
Definition fetch (why : Purpose) (u : string) : M Response :=
  _ ← emit (EvFetch why u);
  match http P u with
  | Some response => ret response
  | None => throw "fetch failed"
  end.

(** [searchPDFsInPage(url, robots)], lines 63-115. *)
Definition searchPDFsInPage (pageUrl : string) (robots : option Robots) : M (list PdfHit) :=
  if truthy_robots robots && negb (isAllowedByRobots robots pageUrl) then ret []
  else
    try_catch
      (response ← fetch Page pageUrl;
       let html := body response in
       ret (fold_left (each_a pageUrl robots) (cheerio_a P html) []))
      (fun _ => ret []).

(** The loop over [links], lines 158-180. *)
Definition each_link (pageUrl : string) (robots : option Robots)
    (pagePdfLinks : list PdfHit) (link : Link) : list PdfHit :=
  push_link ALLERGY_KEYWORDS_JS pageUrl robots pagePdfLinks (href link) (link_text link).

(** [await browser.close()] *)
Definition browser_close (close : CloseOutcome) : M unit :=
  match close with
  | CloseResolves => emit EvClose
  | CloseRejects err => _ ← emit EvCloseRejected; throw err
  end.

(** The handler of lines 184-189.  [browser] is what line 127 left in
    the variable: [None] while it is undefined, and otherwise what the
    call of [browser.close()] will do.  The call of line 186 is awaited
    outside any [try]: when it rejects, the error leaves the function. *)
Definition rendering_error (pageUrl : string) (robots : option Robots)
    (browser : option CloseOutcome) : M (list PdfHit) :=
  _ ← match browser with
      | Some close => browser_close close      (* if (browser) await browser.close() *)
      | None => ret tt
      end;
  searchPDFsInPage pageUrl robots.

(** [searchPDFsInPageWithJS(url, robots)], lines 118-190.  The variable
    [browser] is assigned only when [launch] resolves.  The call of
    [browser.close()] of line 182 is inside the [try]: when it rejects,
    the handler runs as after a failed rendering. *)
Definition searchPDFsInPageWithJS (pageUrl : string) (robots : option Robots) : M (list PdfHit) :=
  if truthy_robots robots && negb (isAllowedByRobots robots pageUrl) then ret []
  else
    match puppeteer P pageUrl with
    | LaunchFails =>
        rendering_error pageUrl robots None
    | NewPageFails close =>
        _ ← emit EvLaunch;
        rendering_error pageUrl robots (Some close)
    | PageFails close =>
        _ ← emit EvLaunch;
        _ ← emit (EvGoto pageUrl);
        rendering_error pageUrl robots (Some close)
    | Rendered links close close_again =>
        _ ← emit EvLaunch;
        _ ← emit (EvGoto pageUrl);
        let pagePdfLinks := fold_left (each_link pageUrl robots) links [] in
        try_catch
          (_ ← browser_close close;
           ret pagePdfLinks)
          (fun _ => rendering_error pageUrl robots (Some close_again))
    end.

(** [new URL(input, base).href] inside a [try] block *)
Definition new_URL (input base : string) : M string :=
  match URL_href P input base with
  | Some h => ret h
  | None => throw "Invalid URL"
  end.

(** [getRobotsRules(baseUrl)], lines 44-54. *)
Definition getRobotsRules (baseUrl : string) : M (option Robots) :=
  try_catch
    (robotsUrl ← new_URL "/robots.txt" baseUrl;
     response ← fetch RobotsTxt robotsUrl;
     let robotsTxt := body response in
     ret (Some (robotsParser P robotsUrl robotsTxt)))
    (fun _ => ret None).

(** [getRobotsRulesWithCache(baseUrl)], lines 401-417. *)
Definition getRobotsRulesWithCache (baseUrl : string) : M (option Robots) :=
  fun st =>
    match robotsCache st !! baseUrl with
    | Some rules => (Return (Some rules), st)       (* robotsCache.has / get *)
    | None =>
        try_catch
          (robotsUrl ← new_URL "/robots.txt" baseUrl;
           response ← fetch RobotsTxt robotsUrl;
           let robotsTxt := body response in
           let rules := robotsParser P robotsUrl robotsTxt in
           _ ← robotsCache_set baseUrl rules;
           ret (Some rules))
          (fun _ => ret None) st
    end.

(** [subpageUrls.add(fullUrl)] on a [Set], kept in insertion order as
    [Array.from] will list it. *)
Definition Set_add (x : string) (xs : list string) : list string :=
  if bool_decide (x ∈ xs) then xs else xs ++ [x].

(** The callback of [$('a').each] in [getSubpageUrls], lines 204-216. *)
Definition each_a_subpage (baseUrl : string) (subpageUrls : list string)
    (element : Anchor) : list string :=
  match attr_href element with
  | None => subpageUrls
  | Some href =>
      if negb (truthy href) then subpageUrls
      else match URL_href P href baseUrl with
           | None => subpageUrls
           | Some fullUrl =>
               if startsWith baseUrl fullUrl then Set_add fullUrl subpageUrls
               else subpageUrls
           end
  end.

(** [getSubpageUrls(baseUrl, robots)], lines 193-223. *)
Definition getSubpageUrls (baseUrl : string) (robots : option Robots) : M (list string) :=
  if truthy_robots robots && negb (isAllowedByRobots robots baseUrl) then ret []
  else
    try_catch
      (response ← fetch Page baseUrl;
       let html := body response in
       ret (fold_left (each_a_subpage baseUrl) (cheerio_a P html) []))
      (fun _ => ret []).

(** [item => item.loc[0]]; [None] stands for the TypeError raised when
    [item.loc] is undefined. *)
Definition loc_0 (item : UrlEntry) : option JsVal :=
  match loc item with
  | None => None
  | Some [] => Some JUndefined
  | Some (v :: _) => Some v
  end.

(** [result.urlset.url.map(item => item.loc[0])] *)
Fixpoint map_loc_0 (items : list UrlEntry) : M (list JsVal) :=
  match items with
  | [] => ret []
  | item :: items' =>
      match loc_0 item with
      | None => throw "Cannot read properties of undefined"
      | Some v => vs ← map_loc_0 items'; ret (v :: vs)
      end
  end.

(** [getSitemapUrls(baseUrl)], lines 226-250. *)
Definition getSitemapUrls (baseUrl : string) : M (list JsVal) :=
  try_catch
    (sitemapUrl ← new_URL "/sitemap.xml" baseUrl;
     response ← fetch Sitemap sitemapUrl;
     if negb (ok response) then ret []
     else
       let xml := body response in
       match parseStringPromise P xml with
       | None => throw "parse error"
       | Some result =>
           match urlset_url result with
           | Some items => map_loc_0 items
           | None => ret []
           end
       end)
    (fun _ => ret []).

(** [subpageUrls.slice(i, j)] for [i <= j] *)
Definition slice {A} (i j : nat) (xs : list A) : list A := take (j - i) (drop i xs).

(** A worker of line 262: the scan of one URL of the batch. *)
Definition batch_worker (robots : option Robots) (u : string) : M (list PdfHit) :=
  pdfs ← searchPDFsInPage u robots;
  _ ← emit (EvSettle u);
  ret pdfs.

(** The [for] loop of lines 257-277; [fuel] bounds its iterations. *)
Fixpoint batch_loop (fuel : nat) (subpageUrls : list string) (robots : option Robots)
    (maxConcurrent : nat) (i : nat) (pdfLinks : list PdfHit) : M (list PdfHit) :=
  match fuel with
  | 0 => fun st => (Diverge, st)
  | S fuel' =>
      if i <? length subpageUrls then
        let batch := slice i (i + maxConcurrent) subpageUrls in
        _ ← emit (EvBatch batch);
        _ ← for_of (fun _ u => emit (EvStart u)) batch tt;
        results ← Promise_all_map (batch_worker robots) batch;
        _ ← ghost_push (concat results);
        batch_loop fuel' subpageUrls robots maxConcurrent (i + maxConcurrent)
                   (pdfLinks ++ concat results)
      else ret pdfLinks
  end.

(** [searchSubpagesParallel(subpageUrls, robots, maxConcurrent)], lines
    253-279.  One iteration more than there are URLs is enough whenever
    the loop terminates at all. *)
Definition searchSubpagesParallel (subpageUrls : list string) (robots : option Robots)
    (maxConcurrent : nat) : M (list PdfHit) :=
  batch_loop (S (length subpageUrls)) subpageUrls robots maxConcurrent 0 [].

(** The body of the loop of [searchSitemapUrlsForPdfs], lines 285-295. *)
Definition sitemap_step (robots : option Robots) (pdfLinks : list PdfHit)
    (sitemapUrl : JsVal) : M (list PdfHit) :=
  match sitemapUrl with
  | JStr u =>
      pdfs ← (if includes "allergen" u || includes "origin" u
              then searchPDFsInPageWithJS u robots
              else searchPDFsInPage u robots);
      _ ← ghost_push pdfs;
      ret (pdfLinks ++ pdfs)
  | JObj _ => throw "sitemapUrl.includes is not a function"
  | JUndefined => throw "Cannot read properties of undefined"
  end.

(** [searchSitemapUrlsForPdfs(sitemapUrls, robots)], lines 282-298. *)
Definition searchSitemapUrlsForPdfs (sitemapUrls : list JsVal) (robots : option Robots)
    : M (list PdfHit) :=
  for_of (sitemap_step robots) sitemapUrls [].

(** [urls.forEach(url => visitedUrls.add(url))] *)
Fixpoint add_each (urls : list JsVal) (visitedUrls : gset JsVal) : M (gset JsVal) :=
  match urls with
  | [] => ret visitedUrls
  | u :: urls' =>
      let visitedUrls' := {[u]} ∪ visitedUrls in
      _ ← ghost_visited visitedUrls';
      add_each urls' visitedUrls'
  end.

(** [urls.filter(url => !visitedUrls.has(url))], on the values of the
    sitemap and on the strings of the sub-page list. *)
Definition unvisited (visitedUrls : gset JsVal) (urls : list JsVal) : list JsVal :=
  List.filter (fun u => negb (bool_decide (u ∈ visitedUrls))) urls.

Definition unvisited_str (visitedUrls : gset JsVal) (urls : list string) : list string :=
  List.filter (fun u => negb (bool_decide (JStr u ∈ visitedUrls))) urls.

(** An awaited call inside the [try] block of [findAllergyPDFs]: when it
    throws, the handler of lines 347-350 returns [pdfLinks] as it is
    then. *)
Definition in_try {A} (pdfLinks : list PdfHit) (m : M A)
    (k : A -> M (list PdfHit)) : M (list PdfHit) :=
  fun st => match m st with
            | (Return a, st') => k a st'
            | (Throw _, st') => (Return pdfLinks, st')
            | (Diverge, st') => (Diverge, st')
            end.

(** Lines 330-346: the sub-page phase and the [return]. *)
Definition subpage_phase (siteUrl : string) (robots : option Robots)
    (pdfLinks : list PdfHit) (visitedUrls : gset JsVal) : M (list PdfHit) :=
  in_try pdfLinks (getSubpageUrls siteUrl robots) (fun subpageUrls =>
  let unvisitedUrls := unvisited_str visitedUrls subpageUrls in
  _ ← add_each (JStr <$> unvisitedUrls) visitedUrls;
  if 0 <? length unvisitedUrls then
    _ ← ghost_dispatch SubpagePhase (JStr <$> unvisitedUrls);
    in_try pdfLinks (searchSubpagesParallel unvisitedUrls robots 2) (fun subpagePdfs =>
    _ ← ghost_push subpagePdfs;
    ret (pdfLinks ++ subpagePdfs))
  else ret pdfLinks).

(** Lines 314-328: the sitemap phase, followed by [rest]. *)
Definition sitemap_phase (siteUrl : string) (robots : option Robots)
    (pdfLinks : list PdfHit) (visitedUrls : gset JsVal)
    (rest : list PdfHit -> gset JsVal -> M (list PdfHit)) : M (list PdfHit) :=
  in_try pdfLinks (getSitemapUrls siteUrl) (fun sitemapUrls =>
  if 0 <? length sitemapUrls then
    let unvisitedSitemapUrls := unvisited visitedUrls sitemapUrls in
    visitedUrls' ← add_each unvisitedSitemapUrls visitedUrls;
    if 0 <? length unvisitedSitemapUrls then
      _ ← ghost_dispatch SitemapPhase unvisitedSitemapUrls;
      in_try pdfLinks (searchSitemapUrlsForPdfs unvisitedSitemapUrls robots)
        (fun sitemapPdfs =>
      _ ← ghost_push sitemapPdfs;
      rest (pdfLinks ++ sitemapPdfs) visitedUrls')
    else rest pdfLinks visitedUrls'
  else rest pdfLinks visitedUrls).

(** [findAllergyPDFs(siteUrl)], lines 301-351. *)
Definition findAllergyPDFs (siteUrl : string) : M (list PdfHit) :=
  let pdfLinks := [] in
  let visitedUrls : gset JsVal := ∅ in
  in_try pdfLinks (getRobotsRules siteUrl) (fun robots =>
  _ ← ghost_dispatch SeedPhase [JStr siteUrl];
  in_try pdfLinks (searchPDFsInPage siteUrl robots) (fun mainPagePdfs =>
  _ ← ghost_push mainPagePdfs;
  let pdfLinks := pdfLinks ++ mainPagePdfs in
  let visitedUrls := {[JStr siteUrl]} ∪ visitedUrls in
  _ ← ghost_visited visitedUrls;
  sitemap_phase siteUrl robots pdfLinks visitedUrls (subpage_phase siteUrl robots))).

End Crawler.

(** ** What the specification says, in its own words *)

Module SpecWords.

(** The path of a serialised hierarchical URL: what follows the
    authority, up to the query string or the fragment. *)
Fixpoint after_scheme (s : string) : string :=
  match s with
  | EmptyString => EmptyString
  | String _ r => if startsWith "://" s then drop_string 3 s else after_scheme r
  end.

Fixpoint from_slash (s : string) : string :=
  match s with
  | EmptyString => EmptyString
  | String c r => if Ascii.eqb c "/" then s else from_slash r
  end.

Fixpoint until_query (s : string) : string :=
  match s with
  | EmptyString => EmptyString
  | String c r =>
      if Ascii.eqb c "?" || Ascii.eqb c "#" then EmptyString
      else String c (until_query r)
  end.

Definition URL_pathname (href : string) : string :=
  until_query (from_slash (after_scheme href)).

(** [k] occurs in [s], letter case ignored. *)
Definition occurs_ci (k s : string) : Prop :=
  exists pre post : string,
    toLowerCase s = String.append pre (String.append (toLowerCase k) post).

(** [s], letter case ignored, ends with [suffix]. *)
Definition ends_ci (suffix s : string) : Prop :=
  exists pre : string, toLowerCase s = String.append pre suffix.

(** "a curated keyword set matches, case-insensitively, against either
    the full absolute URL or the visible link text" *)
Definition keyword_matches (absoluteUrl visibleText : string) : Prop :=
  exists k : string,
    In k ALLERGY_KEYWORDS /\ (occurs_ci k absoluteUrl \/ occurs_ci k visibleText).

(** "its absolute URL's path, case-insensitively, ends with the PDF
    extension" *)
Definition path_is_pdf (absoluteUrl : string) : Prop :=
  ends_ci ".pdf" (URL_pathname absoluteUrl).

End SpecWords.

(** ** A concrete site

    The site of the scenarios of the specification: a seed page and two
    further pages, each with one link to an allergen PDF (on the menu page
    the link carries a query string), a sitemap that lists the allergen
    page and one entry whose [loc] carries an attribute.
    [robots_txt] is the body served for robots.txt, or [None] when the
    request fails. *)

Module Site.

Definition seed : string := "https://example.test/".
Definition allergenPage : string := "https://example.test/allergen".
Definition robotsUrl : string := "https://example.test/robots.txt".
Definition sitemapUrl : string := "https://example.test/sitemap.xml".
Definition pdf : string := "https://example.test/docs/allergy.pdf".
Definition pdf2 : string := "https://example.test/docs/ingredients.pdf".
Definition menuPage : string := "https://example.test/menu".
Definition versionedPdf : string := "https://example.test/docs/allergy.pdf?v=2".

Definition seedHtml : string := "<a href='/docs/allergy.pdf'>アレルギー情報</a>".
Definition allergenHtml : string := "<a href='/docs/ingredients.pdf'> Ingredients </a>".
Definition menuHtml : string := "<a href='/docs/allergy.pdf?v=2'>allergy</a>".
Definition sitemapXml : string :=
  "<urlset><url><loc>https://example.test/allergen</loc></url><url><loc hreflang='ja'>https://example.test/ja</loc></url></urlset>".

(** A policy without rules for the site: every URL is allowed. *)
Definition allowAll : Robots := {| isAllowed := fun _ _ => Some true |}.

(** The resolutions of [new URL(input, base)] that the site needs, from
    either page as base; any other reference is taken not to resolve. *)
Definition resolve (input base : string) : option string :=
  if String.eqb base seed || String.eqb base allergenPage || String.eqb base menuPage then
    if String.eqb input "/docs/allergy.pdf" then Some pdf
    else if String.eqb input "/docs/ingredients.pdf" then Some pdf2
    else if String.eqb input "/docs/allergy.pdf?v=2" then Some versionedPdf
    else if String.eqb input "/robots.txt" then Some robotsUrl
    else if String.eqb input "/sitemap.xml" then Some sitemapUrl
    else None
  else None.

Definition serve (robots_txt : option string) (u : string) : option Response :=
  if String.eqb u seed then Some {| ok := true; body := seedHtml |}
  else if String.eqb u allergenPage then Some {| ok := true; body := allergenHtml |}
  else if String.eqb u menuPage then Some {| ok := true; body := menuHtml |}
  else if String.eqb u sitemapUrl then Some {| ok := true; body := sitemapXml |}
  else if String.eqb u robotsUrl then
    match robots_txt with
    | Some txt => Some {| ok := true; body := txt |}
    | None => None
    end
  else None.

Definition anchors (html : string) : list Anchor :=
  if String.eqb html seedHtml then
    [ {| attr_href := Some "/docs/allergy.pdf"; textContent := "アレルギー情報" |} ]
  else if String.eqb html allergenHtml then
    [ {| attr_href := Some "/docs/ingredients.pdf"; textContent := " Ingredients " |} ]
  else if String.eqb html menuHtml then
    [ {| attr_href := Some "/docs/allergy.pdf?v=2"; textContent := "allergy" |} ]
  else [].

Definition parse (xml : string) : option XmlResult :=
  if String.eqb xml sitemapXml then
    Some {| urlset_url :=
              Some [ {| loc := Some [JStr allergenPage] |};
                     {| loc := Some [JObj 0] |} ] |}
  else None.

Definition render (u : string) : RenderOutcome :=
  if String.eqb u allergenPage then PageFails CloseResolves else LaunchFails.

Definition platform (robots_txt : option string) : Platform :=
  {| URL_href := resolve;
     http := serve robots_txt;
     robotsParser := fun _ _ => allowAll;
     cheerio_a := anchors;
     parseStringPromise := parse;
     puppeteer := render |}.

(** The hit the scenario of the specification expects. *)
Definition expected : PdfHit :=
  {| url := pdf; text := "アレルギー情報"; source := seed |}.

End Site.

(** Two calls of [getRobotsRulesWithCache] for the same origin. *)
Definition get_twice (P : Platform) (origin : string)
    : M (option Robots * option Robots) :=
  first ← getRobotsRulesWithCache P origin;
  second ← getRobotsRulesWithCache P origin;
  ret (first, second).

(** ** Properties of the string operations *)

Section StringFacts.

(** stdpp keeps [String.append] from simplifying; these unfold one
    step of it on a constructor. *)
Lemma append_nil (s : string) : String.append EmptyString s = s.
Proof. reflexivity. Qed.

Lemma append_cons (c : ascii) (r s : string) :
  String.append (String c r) s = String c (String.append r s).
Proof. reflexivity. Qed.

Lemma startsWith_spec (p s : string) :
  startsWith p s = true <-> exists post, s = String.append p post.
Proof.
  revert s. induction p as [|a p IH]; intros s; simpl.
  - split; [intros _; exists s; reflexivity | reflexivity].
  - destruct s as [|c s].
    + split; [discriminate | intros [post H]; discriminate].
    + destruct (Ascii.eqb_spec a c) as [->|Hne].
      * rewrite IH. split; intros [post H]; exists post.
        -- now rewrite H.
        -- rewrite append_cons in H. congruence.
      * split; [discriminate | intros [post H]; rewrite append_cons in H; congruence].
Qed.

Lemma includes_spec (p s : string) :
  includes p s = true <->
  exists pre post, s = String.append pre (String.append p post).
Proof.
  induction s as [|c s IH].
  - simpl. rewrite orb_false_r, startsWith_spec. split.
    + intros [post H]. exists EmptyString, post. exact H.
    + intros [pre [post H]]. destruct pre; [exists post; exact H | discriminate].
  - cbn [includes]. rewrite orb_true_iff, IH, startsWith_spec. split.
    + intros [[post H] | [pre [post H]]].
      * exists EmptyString, post. exact H.
      * exists (String c pre), post. rewrite append_cons. now rewrite H.
    + intros [pre [post H]]. destruct pre as [|a pre].
      * left. exists post. exact H.
      * right. exists pre, post. rewrite append_cons in H. congruence.
Qed.

Lemma endsWith_spec (p s : string) :
  endsWith p s = true <-> exists pre, s = String.append pre p.
Proof.
  induction s as [|c s IH].
  - simpl. rewrite orb_false_r, String.eqb_eq. split.
    + intros ->. exists EmptyString. reflexivity.
    + intros [pre H]. destruct pre; [rewrite append_nil in H; congruence | discriminate].
  - cbn [endsWith]. rewrite orb_true_iff, IH, String.eqb_eq. split.
    + intros [-> | [pre H]].
      * exists EmptyString. reflexivity.
      * exists (String c pre). rewrite append_cons. now rewrite H.
    + intros [pre H]. destruct pre as [|a pre].
      * left. rewrite append_nil in H. congruence.
      * right. exists pre. rewrite append_cons in H. congruence.
Qed.

Lemma regexp_test_i_spec (k s : string) :
  regexp_test_i k s = true <-> SpecWords.occurs_ci k s.
Proof. unfold regexp_test_i, SpecWords.occurs_ci. apply includes_spec. Qed.

Lemma isPDF_spec (fullUrl : string) :
  isPDF fullUrl = true <-> SpecWords.ends_ci ".pdf" fullUrl.
Proof. unfold isPDF, SpecWords.ends_ci. apply endsWith_spec. Qed.

Lemma isAllergyKeyword_spec (keywords : list string) (fullUrl linkText : string) :
  isAllergyKeyword keywords fullUrl linkText = true <->
  exists k, In k keywords /\
            (SpecWords.occurs_ci k fullUrl \/ SpecWords.occurs_ci k linkText).
Proof.
  unfold isAllergyKeyword. rewrite existsb_exists.
  split; intros [k [Hin H]]; exists k; split; try exact Hin.
  - apply orb_true_iff in H. now rewrite <- !regexp_test_i_spec.
  - apply orb_true_iff. now rewrite !regexp_test_i_spec.
Qed.

(** The two keyword arrays of the program hold the same keywords. *)
Lemma ALLERGY_KEYWORDS_JS_same (k : string) :
  In k ALLERGY_KEYWORDS_JS <-> In k ALLERGY_KEYWORDS.
Proof. unfold ALLERGY_KEYWORDS_JS, ALLERGY_KEYWORDS. simpl. tauto. Qed.

Lemma isAllergyKeyword_JS (fullUrl linkText : string) :
  isAllergyKeyword ALLERGY_KEYWORDS_JS fullUrl linkText =
  isAllergyKeyword ALLERGY_KEYWORDS fullUrl linkText.
Proof.
  apply eq_true_iff_eq. rewrite !isAllergyKeyword_spec.
  split; intros [k [Hin H]]; exists k; split; try exact H;
    now apply ALLERGY_KEYWORDS_JS_same.
Qed.

End StringFacts.

(** ** Runs

    What a call adds to the state: every function of the crawler except
    [getRobotsRulesWithCache] leaves [robotsCache] alone and only appends
    to the four lists. *)

Record Delta := {
  d_trace : list Event;
  d_visited : list (gset JsVal);
  d_dispatched : list (Phase * list JsVal);
  d_gathered : list PdfHit
}.

Definition tell (d : Delta) (st : State) : State :=
  {| robotsCache := robotsCache st;
     trace := trace st ++ d_trace d;
     visitedHistory := visitedHistory st ++ d_visited d;
     dispatched := dispatched st ++ d_dispatched d;
     gathered := gathered st ++ d_gathered d |}.

Definition dnil : Delta :=
  {| d_trace := []; d_visited := []; d_dispatched := []; d_gathered := [] |}.

Definition dapp (a b : Delta) : Delta :=
  {| d_trace := d_trace a ++ d_trace b;
     d_visited := d_visited a ++ d_visited b;
     d_dispatched := d_dispatched a ++ d_dispatched b;
     d_gathered := d_gathered a ++ d_gathered b |}.

Definition d_events (evs : list Event) : Delta :=
  {| d_trace := evs; d_visited := []; d_dispatched := []; d_gathered := [] |}.

Definition d_push (pdfs : list PdfHit) : Delta :=
  {| d_trace := []; d_visited := []; d_dispatched := []; d_gathered := pdfs |}.

Definition d_visit (h : list (gset JsVal)) : Delta :=
  {| d_trace := []; d_visited := h; d_dispatched := []; d_gathered := [] |}.

Definition d_dispatch (p : Phase) (urls : list JsVal) : Delta :=
  {| d_trace := []; d_visited := []; d_dispatched := [(p, urls)]; d_gathered := [] |}.

Lemma tell_nil (st : State) : tell dnil st = st.
Proof. destruct st. unfold tell. simpl. now rewrite !app_nil_r. Qed.

Lemma tell_tell (a b : Delta) (st : State) : tell b (tell a st) = tell (dapp a b) st.
Proof. unfold tell, dapp. simpl. now rewrite !app_assoc. Qed.

Lemma dapp_nil_r (d : Delta) : dapp d dnil = d.
Proof. destruct d. unfold dapp. simpl. now rewrite !app_nil_r. Qed.

Lemma dapp_assoc (a b c : Delta) : dapp a (dapp b c) = dapp (dapp a b) c.
Proof. unfold dapp. simpl. now rewrite !app_assoc. Qed.

Lemma emit_run (ev : Event) (st : State) : emit ev st = (Return tt, tell (d_events [ev]) st).
Proof. destruct st. unfold emit, tell. simpl. now rewrite !app_nil_r. Qed.

Lemma ghost_push_run (pdfs : list PdfHit) (st : State) :
  ghost_push pdfs st = (Return tt, tell (d_push pdfs) st).
Proof. destruct st. unfold ghost_push, tell. simpl. now rewrite !app_nil_r. Qed.

Lemma ghost_visited_run (v : gset JsVal) (st : State) :
  ghost_visited v st = (Return tt, tell (d_visit [v]) st).
Proof. destruct st. unfold ghost_visited, tell. simpl. now rewrite !app_nil_r. Qed.

Lemma ghost_dispatch_run (p : Phase) (urls : list JsVal) (st : State) :
  ghost_dispatch p urls st = (Return tt, tell (d_dispatch p urls) st).
Proof. destruct st. unfold ghost_dispatch, tell. simpl. now rewrite !app_nil_r. Qed.

(** Unfolding one [bind]. *)
Lemma bind_run {A B} (m : M A) (k : A -> M B) (st : State) :
  (x ← m; k x) st =
  match m st with
  | (Return a, st') => k a st'
  | (Throw e, st') => (Throw e, st')
  | (Diverge, st') => (Diverge, st')
  end.
Proof. reflexivity. Qed.

(** Runs the primitive steps at the head of a computation. *)
Ltac run_step :=
  first [ rewrite bind_run | rewrite emit_run | rewrite ghost_push_run
        | rewrite ghost_visited_run | rewrite ghost_dispatch_run ];
  cbn beta iota.
Ltac run := repeat run_step.

Section PageScanner.

Context (P : Platform).

(** The hits of a page, as a function of the platform alone. *)
Definition page_hits (pageUrl : string) (robots : option Robots) : list PdfHit :=
  if truthy_robots robots && negb (isAllowedByRobots robots pageUrl) then []
  else match http P pageUrl with
       | Some response =>
           fold_left (each_a P pageUrl robots) (cheerio_a P (body response)) []
       | None => []
       end.

Definition page_events (pageUrl : string) (robots : option Robots) : list Event :=
  if truthy_robots robots && negb (isAllowedByRobots robots pageUrl) then []
  else [EvFetch Page pageUrl].

(** [searchPDFsInPage] always returns, and what it returns does not
    depend on the state. *)
Lemma searchPDFsInPage_run (pageUrl : string) (robots : option Robots) (st : State) :
  searchPDFsInPage P pageUrl robots st =
  (Return (page_hits pageUrl robots), tell (d_events (page_events pageUrl robots)) st).
Proof.
  unfold searchPDFsInPage, page_hits, page_events.
  destruct (truthy_robots robots && negb (isAllowedByRobots robots pageUrl)).
  - unfold ret. now rewrite tell_nil.
  - unfold try_catch, fetch. rewrite bind_run, bind_run, emit_run.
    destruct (http P pageUrl); reflexivity.
Qed.

(** With a null policy no link is ever pushed (line 97). *)
Lemma each_a_null (pageUrl : string) (anchors : list Anchor) (acc : list PdfHit) :
  fold_left (each_a P pageUrl None) anchors acc = acc.
Proof.
  revert acc. induction anchors as [|el anchors IH]; intros acc; [reflexivity|].
  simpl. rewrite IH. unfold each_a, push_link.
  destruct (attr_href el) as [h|]; [|reflexivity].
  destruct (negb (truthy h)); [reflexivity|].
  destruct (URL_href P h pageUrl) as [fullUrl|]; [|reflexivity].
  simpl. now destruct (isPDF fullUrl && isAllergyKeyword ALLERGY_KEYWORDS fullUrl _).
Qed.

Lemma page_hits_null (pageUrl : string) : page_hits pageUrl None = [].
Proof.
  unfold page_hits. simpl. destruct (http P pageUrl); [apply each_a_null | reflexivity].
Qed.

(** The candidate an anchor gives rise to: its resolved URL and its
    trimmed text, when it has a non-empty [href] that resolves. *)
Definition candidate (pageUrl : string) (element : Anchor) : option (string * string) :=
  match attr_href element with
  | Some h =>
      if truthy h then
        match URL_href P h pageUrl with
        | Some fullUrl => Some (fullUrl, trim (textContent element))
        | None => None
        end
      else None
  | None => None
  end.

(** The anchor satisfies the PDF-extension-plus-keyword rule. *)
Definition satisfies_rule (pageUrl : string) (element : Anchor) : bool :=
  match candidate pageUrl element with
  | Some (fullUrl, linkText) => qualifies fullUrl linkText
  | None => false
  end.

(** The policy answers [true] for the target of the anchor (the test of
    line 97 under a parsed policy). *)
Definition target_allowed (r : Robots) (pageUrl : string) (element : Anchor) : bool :=
  match candidate pageUrl element with
  | Some (fullUrl, _) => isAllowedByRobots (Some r) fullUrl
  | None => false
  end.

(** Under a parsed policy, each anchor that satisfies the rule and whose
    target the policy allows contributes exactly one hit, and no other
    anchor contributes any. *)
Lemma each_a_count (r : Robots) (pageUrl : string) (anchors : list Anchor)
    (acc : list PdfHit) :
  length (fold_left (each_a P pageUrl (Some r)) anchors acc) =
  length acc +
  length (List.filter (fun element => satisfies_rule pageUrl element &&
                                      target_allowed r pageUrl element) anchors).
Proof.
  revert acc.
  induction anchors as [|el anchors IH]; intros acc; simpl; [lia|].
  rewrite IH. unfold each_a, push_link, satisfies_rule, target_allowed, candidate, qualifies.
  destruct (attr_href el) as [h|]; [|simpl; lia].
  destruct (truthy h); simpl; [|lia].
  destruct (URL_href P h pageUrl) as [fullUrl|]; [|simpl; lia].
  destruct (isPDF fullUrl && isAllergyKeyword ALLERGY_KEYWORDS fullUrl _); simpl; [|lia].
  destruct (match isAllowed r fullUrl "CustomBot" with
            | Some answer => answer
            | None => false
            end); simpl; [|lia].
  rewrite length_app. simpl. lia.
Qed.

Lemma page_hits_count (r : Robots) (pageUrl : string) (response : Response) :
  isAllowedByRobots (Some r) pageUrl = true ->
  http P pageUrl = Some response ->
  length (page_hits pageUrl (Some r)) =
  length (List.filter (fun element => satisfies_rule pageUrl element &&
                                      target_allowed r pageUrl element)
                      (cheerio_a P (body response))).
Proof.
  intros Hallowed Hhttp. unfold page_hits. rewrite Hallowed, andb_false_r, Hhttp.
  now rewrite each_a_count.
Qed.

(** Every hit of a page names that page as its source. *)
Lemma each_a_source (pageUrl : string) (robots : option Robots) (anchors : list Anchor)
    (acc : list PdfHit) :
  Forall (fun h => source h = pageUrl) acc ->
  Forall (fun h => source h = pageUrl) (fold_left (each_a P pageUrl robots) anchors acc).
Proof.
  revert acc. induction anchors as [|el anchors IH]; intros acc Hacc; [exact Hacc|].
  simpl. apply IH. unfold each_a, push_link.
  destruct (attr_href el) as [h|]; [|exact Hacc].
  destruct (negb (truthy h)); [exact Hacc|].
  destruct (URL_href P h pageUrl) as [fullUrl|]; [|exact Hacc].
  destruct (isPDF fullUrl && isAllergyKeyword ALLERGY_KEYWORDS fullUrl _); [|exact Hacc].
  destruct (truthy_robots robots && isAllowedByRobots robots fullUrl); [|exact Hacc].
  apply Forall_app. split; [exact Hacc|]. constructor; [reflexivity | constructor].
Qed.

Lemma page_hits_source (pageUrl : string) (robots : option Robots) :
  Forall (fun h => source h = pageUrl) (page_hits pageUrl robots).
Proof.
  unfold page_hits.
  destruct (truthy_robots robots && negb (isAllowedByRobots robots pageUrl));
    [constructor|].
  destruct (http P pageUrl); [|constructor].
  apply each_a_source. constructor.
Qed.

End PageScanner.

Section Helpers.

Context (P : Platform).

(** *** [getRobotsRules] *)

Definition robots_rules (baseUrl : string) : option Robots :=
  match URL_href P "/robots.txt" baseUrl with
  | Some robotsUrl =>
      match http P robotsUrl with
      | Some response => Some (robotsParser P robotsUrl (body response))
      | None => None
      end
  | None => None
  end.

Definition robots_events (baseUrl : string) : list Event :=
  match URL_href P "/robots.txt" baseUrl with
  | Some robotsUrl => [EvFetch RobotsTxt robotsUrl]
  | None => []
  end.

Lemma getRobotsRules_run (baseUrl : string) (st : State) :
  getRobotsRules P baseUrl st =
  (Return (robots_rules baseUrl), tell (d_events (robots_events baseUrl)) st).
Proof.
  unfold getRobotsRules, robots_rules, robots_events, try_catch, new_URL.
  rewrite bind_run.
  destruct (URL_href P "/robots.txt" baseUrl) as [robotsUrl|].
  - unfold ret at 1. unfold fetch. rewrite !bind_run, emit_run.
    destruct (http P robotsUrl); reflexivity.
  - unfold throw, ret. now rewrite tell_nil.
Qed.

(** *** [searchPDFsInPageWithJS] *)

Definition close_error (close : CloseOutcome) : option string :=
  match close with
  | CloseResolves => None
  | CloseRejects err => Some err
  end.

(** The error that leaves the handler of lines 184-189: that of a
    rejected [browser.close()] of line 186. *)
Definition handler_error (outcome : RenderOutcome) : option string :=
  match outcome with
  | LaunchFails => None
  | NewPageFails close | PageFails close => close_error close
  | Rendered _ CloseResolves _ => None
  | Rendered _ (CloseRejects _) close_again => close_error close_again
  end.

(** The error [searchPDFsInPageWithJS] throws, if it throws. *)
Definition js_error (pageUrl : string) (robots : option Robots) : option string :=
  if truthy_robots robots && negb (isAllowedByRobots robots pageUrl) then None
  else handler_error (puppeteer P pageUrl).

(** The hits [searchPDFsInPageWithJS] returns, when it returns. *)
Definition js_hits (pageUrl : string) (robots : option Robots) : list PdfHit :=
  if truthy_robots robots && negb (isAllowedByRobots robots pageUrl) then []
  else match puppeteer P pageUrl with
       | Rendered links CloseResolves _ => fold_left (each_link P pageUrl robots) links []
       | _ => page_hits P pageUrl robots
       end.

Definition js_outcome (pageUrl : string) (robots : option Robots)
    : Outcome (list PdfHit) :=
  match js_error pageUrl robots with
  | Some err => Throw err
  | None => Return (js_hits pageUrl robots)
  end.

(** The events of the handler: the call of [browser.close()] and, when
    it resolves, those of the static scan. *)
Definition handler_events (close : CloseOutcome) (static : list Event) : list Event :=
  match close with
  | CloseResolves => EvClose :: static
  | CloseRejects _ => [EvCloseRejected]
  end.

Definition js_events (pageUrl : string) (robots : option Robots) : list Event :=
  if truthy_robots robots && negb (isAllowedByRobots robots pageUrl) then []
  else match puppeteer P pageUrl with
       | LaunchFails => page_events pageUrl robots
       | NewPageFails close =>
           EvLaunch :: handler_events close (page_events pageUrl robots)
       | PageFails close =>
           EvLaunch :: EvGoto pageUrl :: handler_events close (page_events pageUrl robots)
       | Rendered _ CloseResolves _ => [EvLaunch; EvGoto pageUrl; EvClose]
       | Rendered _ (CloseRejects _) close_again =>
           EvLaunch :: EvGoto pageUrl :: EvCloseRejected ::
           handler_events close_again (page_events pageUrl robots)
       end.

Lemma rendering_error_run (pageUrl : string) (robots : option Robots)
    (close : CloseOutcome) (st : State) :
  rendering_error P pageUrl robots (Some close) st =
  (match close_error close with
   | Some err => Throw err
   | None => Return (page_hits P pageUrl robots)
   end,
   tell (d_events (handler_events close (page_events pageUrl robots))) st).
Proof.
  unfold rendering_error, browser_close. destruct close as [|err]; run.
  - now rewrite searchPDFsInPage_run, !tell_tell.
  - reflexivity.
Qed.

(** [searchPDFsInPageWithJS] returns or throws, and what it does then
    does not depend on the state. *)
Lemma searchPDFsInPageWithJS_run (pageUrl : string) (robots : option Robots) (st : State) :
  searchPDFsInPageWithJS P pageUrl robots st =
  (js_outcome pageUrl robots, tell (d_events (js_events pageUrl robots)) st).
Proof.
  unfold searchPDFsInPageWithJS, js_outcome, js_error, js_hits, js_events.
  destruct (truthy_robots robots && negb (isAllowedByRobots robots pageUrl)) eqn:G.
  - unfold ret. now rewrite tell_nil.
  - destruct (puppeteer P pageUrl) as [|close|close|links close close_again];
      cbn [handler_error].
    + unfold rendering_error. run. apply searchPDFsInPage_run.
    + run. rewrite rendering_error_run, !tell_tell. now destruct close.
    + run. rewrite rendering_error_run, !tell_tell. now destruct close.
    + run. unfold try_catch, browser_close. destruct close as [|err]; run.
      * unfold ret. now rewrite !tell_tell.
      * unfold throw. cbn beta iota.
        rewrite rendering_error_run, !tell_tell. now destruct close_again.
Qed.

(** *** [getSubpageUrls] *)

Definition subpage_urls (baseUrl : string) (robots : option Robots) : list string :=
  if truthy_robots robots && negb (isAllowedByRobots robots baseUrl) then []
  else match http P baseUrl with
       | Some response =>
           fold_left (each_a_subpage P baseUrl) (cheerio_a P (body response)) []
       | None => []
       end.

Lemma getSubpageUrls_run (baseUrl : string) (robots : option Robots) (st : State) :
  getSubpageUrls P baseUrl robots st =
  (Return (subpage_urls baseUrl robots), tell (d_events (page_events baseUrl robots)) st).
Proof.
  unfold getSubpageUrls, subpage_urls, page_events.
  destruct (truthy_robots robots && negb (isAllowedByRobots robots baseUrl)).
  - unfold ret. now rewrite tell_nil.
  - unfold try_catch, fetch. rewrite bind_run, bind_run, emit_run.
    destruct (http P baseUrl); reflexivity.
Qed.

(** *** [getSitemapUrls] *)

(** The locations of the entries, in document order; [None] when some
    entry has no [loc]. *)
Fixpoint locations (items : list UrlEntry) : option (list JsVal) :=
  match items with
  | [] => Some []
  | item :: items' =>
      match loc_0 item, locations items' with
      | Some v, Some vs => Some (v :: vs)
      | _, _ => None
      end
  end.

Lemma map_loc_0_run (items : list UrlEntry) (st : State) :
  match locations items with
  | Some vs => map_loc_0 items st = (Return vs, st)
  | None => exists e, map_loc_0 items st = (Throw e, st)
  end.
Proof.
  induction items as [|item items IH]; simpl; [reflexivity|].
  destruct (loc_0 item) as [v|]; [|eexists; reflexivity].
  rewrite bind_run.
  destruct (locations items) as [vs|].
  - now rewrite IH.
  - destruct IH as [e ->]. eexists; reflexivity.
Qed.

Definition sitemap_urls (baseUrl : string) : list JsVal :=
  match URL_href P "/sitemap.xml" baseUrl with
  | Some sitemapUrl =>
      match http P sitemapUrl with
      | Some response =>
          if ok response then
            match parseStringPromise P (body response) with
            | Some result =>
                match urlset_url result with
                | Some items => default [] (locations items)
                | None => []
                end
            | None => []
            end
          else []
      | None => []
      end
  | None => []
  end.

Definition sitemap_events (baseUrl : string) : list Event :=
  match URL_href P "/sitemap.xml" baseUrl with
  | Some sitemapUrl => [EvFetch Sitemap sitemapUrl]
  | None => []
  end.

Lemma getSitemapUrls_run (baseUrl : string) (st : State) :
  getSitemapUrls P baseUrl st =
  (Return (sitemap_urls baseUrl), tell (d_events (sitemap_events baseUrl)) st).
Proof.
  unfold getSitemapUrls, sitemap_urls, sitemap_events, try_catch, new_URL.
  rewrite bind_run.
  destruct (URL_href P "/sitemap.xml" baseUrl) as [sitemapUrl|].
  - unfold ret at 1. unfold fetch. rewrite !bind_run, emit_run.
    destruct (http P sitemapUrl) as [response|]; [|reflexivity].
    unfold ret at 1.
    destruct (ok response); simpl; [|reflexivity].
    destruct (parseStringPromise P (body response)) as [result|]; [|reflexivity].
    destruct (urlset_url result) as [items|]; [|reflexivity].
    pose proof (map_loc_0_run items (tell (d_events [EvFetch Sitemap sitemapUrl]) st)) as H.
    destruct (locations items) as [vs|].
    + now rewrite H.
    + destruct H as [e ->]. reflexivity.
  - unfold throw, ret. now rewrite tell_nil.
Qed.

End Helpers.

(** ** Batches *)

(** "Partitions [urls] into fixed-size batches of [maxConcurrent]". *)
Fixpoint chunks_fuel {A} (fuel n : nat) (l : list A) : list (list A) :=
  match fuel with
  | 0 => []
  | S fuel' =>
      match l with
      | [] => []
      | _ :: _ => take n l :: chunks_fuel fuel' n (drop n l)
      end
  end.

Definition chunks {A} (n : nat) (l : list A) : list (list A) :=
  chunks_fuel (length l) n l.

Section Chunks.

Context {A : Type} (n : nat) (Hn : 0 < n).

Lemma chunks_fuel_enough (f g : nat) (l : list A) :
  length l <= f -> length l <= g -> chunks_fuel f n l = chunks_fuel g n l.
Proof.
  revert g l. induction f as [|f IH]; intros g l Hf Hg.
  - destruct l; [|simpl in Hf; lia]. now destruct g.
  - destruct g as [|g].
    + destruct l; [reflexivity | simpl in Hg; lia].
    + destruct l as [|x l]; [reflexivity|].
      cbn [chunks_fuel]. f_equal.
      assert (length (drop n (x :: l)) <= length l).
      { rewrite length_drop. simpl. lia. }
      simpl in Hf, Hg. apply IH; lia.
Qed.

Lemma chunks_nil : chunks n (@nil A) = [].
Proof. reflexivity. Qed.

Lemma chunks_cons (l : list A) :
  l <> [] -> chunks n l = take n l :: chunks n (drop n l).
Proof.
  intros Hl. unfold chunks. destruct l as [|x l]; [contradiction|].
  cbn [length chunks_fuel]. f_equal.
  apply chunks_fuel_enough; rewrite length_drop; simpl; lia.
Qed.

(** The [k]-th batch is the slice of [n] elements that starts at index
    [k * n]; there are no further batches once that index is past the
    end. *)
Lemma chunks_lookup (l : list A) (k : nat) :
  chunks n l !! k =
  if k * n <? length l then Some (take n (drop (k * n) l)) else None.
Proof.
  revert l. induction k as [|k IH]; intros l.
  - destruct l as [|x l]; [reflexivity|].
    rewrite chunks_cons by discriminate. reflexivity.
  - destruct l as [|x l].
    + rewrite chunks_nil. change (length (@nil A)) with 0.
      destruct (Nat.ltb_spec (S k * n) 0); [lia | reflexivity].
    + rewrite chunks_cons by discriminate.
      change ((take n (x :: l) :: chunks n (drop n (x :: l))) !! S k)
        with (chunks n (drop n (x :: l)) !! k).
      rewrite IH, length_drop, drop_drop.
      replace (S k * n) with (n + k * n) by lia.
      destruct (Nat.ltb_spec (k * n) (length (x :: l) - n));
        destruct (Nat.ltb_spec (n + k * n) (length (x :: l))); try lia; reflexivity.
Qed.

Lemma chunks_concat (l : list A) : concat (chunks n l) = l.
Proof.
  remember (length l) as m eqn:Hm. revert l Hm.
  induction m as [m IH] using lt_wf_ind. intros l Hm.
  destruct l as [|x l]; [reflexivity|].
  rewrite chunks_cons by discriminate. cbn [concat].
  rewrite (IH (length (drop n (x :: l)))); [apply take_drop | | reflexivity].
  rewrite length_drop. subst m. simpl. lia.
Qed.

Lemma chunks_bounded (l : list A) :
  Forall (fun b => 0 < length b <= n) (chunks n l).
Proof.
  remember (length l) as m eqn:Hm. revert l Hm.
  induction m as [m IH] using lt_wf_ind. intros l Hm.
  destruct l as [|x l]; [constructor|].
  rewrite chunks_cons by discriminate. constructor.
  - rewrite length_take. simpl. lia.
  - apply (IH (length (drop n (x :: l)))); [|reflexivity].
    rewrite length_drop. subst m. simpl. lia.
Qed.

End Chunks.

(** The number of batch workers in flight after a trace, and the batches
    a trace slices off. *)
Fixpoint in_flight_from (cur : nat) (tr : list Event) : nat :=
  match tr with
  | [] => cur
  | EvStart _ :: tr' => in_flight_from (S cur) tr'
  | EvSettle _ :: tr' => in_flight_from (pred cur) tr'
  | _ :: tr' => in_flight_from cur tr'
  end.

Definition in_flight (tr : list Event) : nat := in_flight_from 0 tr.

Definition batches_of (tr : list Event) : list (list string) :=
  omap (fun ev => match ev with EvBatch b => Some b | _ => None end) tr.

(** A checker that walks a trace: no worker is started beyond the bound,
    and none is in flight when a batch is sliced off.  It answers the
    number in flight at the end. *)
Fixpoint flight (bound cur : nat) (tr : list Event) : option nat :=
  match tr with
  | [] => Some cur
  | EvStart _ :: tr' => if S cur <=? bound then flight bound (S cur) tr' else None
  | EvSettle _ :: tr' => flight bound (pred cur) tr'
  | EvBatch _ :: tr' => if cur =? 0 then flight bound cur tr' else None
  | _ :: tr' => flight bound cur tr'
  end.

Section Flight.

Context (bound : nat).

Lemma flight_app (cur : nat) (a b : list Event) :
  flight bound cur (a ++ b) =
  match flight bound cur a with
  | Some c => flight bound c b
  | None => None
  end.
Proof.
  revert cur. induction a as [|ev a IH]; intros cur; [reflexivity|].
  destruct ev; cbn [flight app]; try apply IH.
  - destruct (cur =? 0); [apply IH | reflexivity].
  - destruct (S cur <=? bound); [apply IH | reflexivity].
Qed.

Lemma flight_sound (cur c : nat) (tr : list Event) :
  flight bound cur tr = Some c -> cur <= bound ->
  forall pre post, tr = pre ++ post ->
    in_flight_from cur pre <= bound /\
    (forall b post', post = EvBatch b :: post' -> in_flight_from cur pre = 0).
Proof.
  revert cur. induction tr as [|ev tr IH]; intros cur Hf Hcur pre post Heq.
  - destruct pre; [|discriminate]. simpl in Heq. subst post.
    split; [exact Hcur | intros; discriminate].
  - destruct pre as [|ev' pre].
    + simpl in Heq. subst post. split; [exact Hcur|].
      intros b post' Hb. injection Hb as -> _. cbn [flight] in Hf.
      destruct (Nat.eqb_spec cur 0); [assumption | discriminate].
    + injection Heq as <- Heq.
      destruct ev; cbn [flight in_flight_from] in Hf |- *;
        try (eapply IH; [exact Hf | lia | exact Heq]).
      * destruct (cur =? 0); [|discriminate].
        eapply IH; [exact Hf | lia | exact Heq].
      * destruct (Nat.leb_spec (S cur) bound); [|discriminate].
        eapply IH; [exact Hf | lia | exact Heq].
Qed.

(** One batch of at most [bound] workers passes the checker and leaves
    nobody in flight. *)
Lemma flight_starts (cur : nat) (batch : list string) :
  cur + length batch <= bound ->
  flight bound cur (map EvStart batch) = Some (cur + length batch).
Proof.
  revert cur. induction batch as [|u batch IH]; intros cur H;
    cbn [flight map length] in *.
  - f_equal. lia.
  - destruct (Nat.leb_spec (S cur) bound); [|lia].
    rewrite IH by lia. f_equal. lia.
Qed.

End Flight.

Section BatchScheduler.

Context (P : Platform) (robots : option Robots).

Abbreviation hits_of := (fun u => page_hits P u robots).

(** What the worker of one URL adds to the trace. *)
Definition worker_events (u : string) : list Event :=
  page_events u robots ++ [EvSettle u].

(** What one batch adds to the state. *)
Definition batch_delta (batch : list string) : Delta :=
  {| d_trace := EvBatch batch :: map EvStart batch ++ flat_map worker_events batch;
     d_visited := [];
     d_dispatched := [];
     d_gathered := flat_map hits_of batch |}.

Fixpoint batches_delta (batches : list (list string)) : Delta :=
  match batches with
  | [] => dnil
  | batch :: batches' => dapp (batch_delta batch) (batches_delta batches')
  end.

Lemma starts_run (batch : list string) (st : State) :
  for_of (fun _ u => emit (EvStart u)) batch tt st =
  (Return tt, tell (d_events (map EvStart batch)) st).
Proof.
  revert st. induction batch as [|u batch IH]; intros st; cbn [for_of map].
  - unfold ret. now rewrite tell_nil.
  - run. destruct (_ : unit). now rewrite IH, tell_tell.
Qed.

Lemma batch_worker_run (u : string) (st : State) :
  batch_worker P robots u st =
  (Return (page_hits P u robots), tell (d_events (worker_events u)) st).
Proof.
  unfold batch_worker. run. rewrite searchPDFsInPage_run. run.
  unfold ret. now rewrite tell_tell.
Qed.

Lemma workers_run (batch : list string) (st : State) :
  Promise_all_map (batch_worker P robots) batch st =
  (Return (map hits_of batch), tell (d_events (flat_map worker_events batch)) st).
Proof.
  revert st. induction batch as [|u batch IH]; intros st;
    cbn [Promise_all_map map flat_map].
  - unfold ret. now rewrite tell_nil.
  - run. rewrite batch_worker_run. run. rewrite IH. cbn beta iota.
    unfold ret. now rewrite !tell_tell.
Qed.

Lemma batch_loop_run (maxConcurrent : nat) (subpageUrls : list string) :
  0 < maxConcurrent ->
  forall (fuel i : nat) (pdfLinks : list PdfHit) (st : State),
    length (drop i subpageUrls) < fuel ->
    batch_loop P fuel subpageUrls robots maxConcurrent i pdfLinks st =
    (Return (pdfLinks ++ flat_map hits_of (drop i subpageUrls)),
     tell (batches_delta (chunks maxConcurrent (drop i subpageUrls))) st).
Proof.
  intros Hmc fuel. induction fuel as [|fuel IH]; intros i pdfLinks st Hfuel; [lia|].
  cbn [batch_loop]. destruct (Nat.ltb_spec i (length subpageUrls)) as [Hi|Hi].
  - assert (Hne : drop i subpageUrls <> []).
    { intros E. apply (f_equal length) in E. rewrite length_drop in E. simpl in E. lia. }
    unfold slice. replace (i + maxConcurrent - i) with maxConcurrent by lia.
    run. rewrite starts_run. cbn beta iota. run.
    rewrite workers_run. cbn beta iota. run.
    rewrite IH.
    + rewrite (chunks_cons maxConcurrent Hmc _ Hne). cbn [batches_delta].
      rewrite <- drop_drop, !tell_tell, <- app_assoc, <- flat_map_concat_map.
      rewrite <- flat_map_app, take_drop.
      rewrite !dapp_assoc. do 3 f_equal. unfold dapp, batch_delta. cbn.
      now rewrite app_nil_r.
    + rewrite length_drop in *. lia.
  - rewrite drop_ge by lia. cbn [flat_map]. rewrite chunks_nil, app_nil_r.
    unfold ret. cbn [batches_delta]. now rewrite tell_nil.
Qed.

(** [searchSubpagesParallel] returns as soon as [maxConcurrent] is
    positive: the hits of the URLs in input order; the state grows by
    the batches of [chunks]. *)
Lemma searchSubpagesParallel_run (maxConcurrent : nat) (subpageUrls : list string)
    (st : State) :
  0 < maxConcurrent ->
  searchSubpagesParallel P subpageUrls robots maxConcurrent st =
  (Return (flat_map hits_of subpageUrls),
   tell (batches_delta (chunks maxConcurrent subpageUrls)) st).
Proof.
  intros Hmc. unfold searchSubpagesParallel.
  rewrite (batch_loop_run _ _ Hmc); [reflexivity|]. rewrite length_drop. lia.
Qed.

(** With [maxConcurrent = 0] and a URL to scan, the loop never ends,
    whatever the number of iterations allowed. *)
Lemma batch_loop_zero (subpageUrls : list string) (fuel i : nat)
    (pdfLinks : list PdfHit) (st : State) :
  i < length subpageUrls ->
  fst (batch_loop P fuel subpageUrls robots 0 i pdfLinks st) = Diverge.
Proof.
  intros Hi. revert pdfLinks st. induction fuel as [|fuel IH]; intros pdfLinks st;
    [reflexivity|].
  cbn [batch_loop]. destruct (Nat.ltb_spec i (length subpageUrls)); [|lia].
  run. rewrite starts_run. cbn beta iota. run. rewrite workers_run. cbn beta iota.
  run. rewrite Nat.add_0_r. apply IH.
Qed.

(** The trace of the batches. *)
Lemma batches_of_delta (batches : list (list string)) :
  batches_of (d_trace (batches_delta batches)) = batches.
Proof.
  induction batches as [|b batches IH]; [reflexivity|].
  cbn [batches_delta dapp d_trace batch_delta]. unfold batches_of in *.
  rewrite <- app_comm_cons. cbn [omap list_omap]. f_equal.
  rewrite !omap_app, IH.
  assert (H1 : forall l : list string,
             omap (fun ev => match ev with EvBatch b => Some b | _ => None end)
                  (map EvStart l) = []).
  { induction l as [|u l IHl]; [reflexivity | exact IHl]. }
  assert (H2 : forall l : list string,
             omap (fun ev => match ev with EvBatch b => Some b | _ => None end)
                  (flat_map worker_events l) = []).
  { induction l as [|u l IHl]; [reflexivity|].
    cbn [flat_map]. rewrite omap_app, IHl, app_nil_r.
    unfold worker_events, page_events. now destruct (_ && _). }
  now rewrite H1, H2.
Qed.

Lemma flight_workers (bound cur : nat) (batch : list string) :
  flight bound cur (flat_map worker_events batch) = Some (cur - length batch).
Proof.
  revert cur. induction batch as [|u batch IH]; intros cur; cbn [flat_map length].
  - cbn [flight]. f_equal. lia.
  - rewrite flight_app.
    assert (flight bound cur (worker_events u) = Some (pred cur)) as ->.
    { unfold worker_events, page_events. now destruct (_ && _). }
    rewrite IH. f_equal. lia.
Qed.

Lemma flight_batches (bound : nat) (batches : list (list string)) :
  Forall (fun b => 0 < length b <= bound) batches ->
  flight bound 0 (d_trace (batches_delta batches)) = Some 0.
Proof.
  induction 1 as [|b batches [_ Hb] _ IH]; [reflexivity|].
  cbn [batches_delta dapp d_trace batch_delta].
  rewrite <- app_comm_cons. cbn [flight Nat.eqb].
  rewrite !flight_app, flight_starts by (simpl; lia).
  rewrite flight_workers. replace (0 + length b - length b) with 0 by lia.
  exact IH.
Qed.

End BatchScheduler.

(** ** The orchestrator *)

(** The values [visitedUrls] takes while [urls] are added to it, and the
    value it has in the end. *)
Fixpoint add_history (urls : list JsVal) (visitedUrls : gset JsVal) : list (gset JsVal) :=
  match urls with
  | [] => []
  | u :: urls' => ({[u]} ∪ visitedUrls) :: add_history urls' ({[u]} ∪ visitedUrls)
  end.

Fixpoint add_result (urls : list JsVal) (visitedUrls : gset JsVal) : gset JsVal :=
  match urls with
  | [] => visitedUrls
  | u :: urls' => add_result urls' ({[u]} ∪ visitedUrls)
  end.

Lemma add_each_run (urls : list JsVal) (visitedUrls : gset JsVal) (st : State) :
  add_each urls visitedUrls st =
  (Return (add_result urls visitedUrls), tell (d_visit (add_history urls visitedUrls)) st).
Proof.
  revert visitedUrls st. induction urls as [|u urls IH]; intros V st;
    cbn [add_each add_history add_result].
  - unfold ret. now rewrite tell_nil.
  - run. now rewrite IH, tell_tell.
Qed.

Lemma add_result_spec (urls : list JsVal) (visitedUrls : gset JsVal) (u : JsVal) :
  u ∈ add_result urls visitedUrls <-> u ∈ urls \/ u ∈ visitedUrls.
Proof.
  revert visitedUrls. induction urls as [|x urls IH]; intros V; cbn [add_result].
  - rewrite elem_of_nil. tauto.
  - rewrite IH, elem_of_cons, elem_of_union, elem_of_singleton. tauto.
Qed.

(** A history that only grows, starting above [visitedUrls]. *)
Fixpoint increasing_from (visitedUrls : gset JsVal) (history : list (gset JsVal)) : Prop :=
  match history with
  | [] => True
  | V :: history' => visitedUrls ⊆ V /\ increasing_from V history'
  end.

Lemma last_cons_default {A} (x d : A) (l : list A) :
  List.last (x :: l) d = List.last l x.
Proof.
  revert x d. induction l as [|y l IH]; intros x d; [reflexivity|].
  change (List.last (x :: y :: l) d) with (List.last (y :: l) d).
  now rewrite (IH y d), (IH y x).
Qed.

Lemma increasing_from_app (V : gset JsVal) (h1 h2 : list (gset JsVal)) :
  increasing_from V h1 ->
  increasing_from (List.last h1 V) h2 ->
  increasing_from V (h1 ++ h2).
Proof.
  revert V. induction h1 as [|W h1 IH]; intros V H1 H2; [exact H2|].
  destruct H1 as [HVW H1]. split; [exact HVW|].
  apply IH; [exact H1|]. now rewrite <- (last_cons_default W V).
Qed.

Lemma add_history_increasing (urls : list JsVal) (V : gset JsVal) :
  increasing_from V (add_history urls V).
Proof.
  revert V. induction urls as [|u urls IH]; intros V; [exact I|].
  split; [set_solver | apply IH].
Qed.

Lemma add_history_last (urls : list JsVal) (V : gset JsVal) :
  List.last (add_history urls V) V = add_result urls V.
Proof.
  revert V. induction urls as [|u urls IH]; intros V; [reflexivity|].
  cbn [add_history add_result]. rewrite <- IH. apply last_cons_default.
Qed.

Section Orchestrator.

Context (P : Platform) (siteUrl : string).

Abbreviation robots := (robots_rules P siteUrl).
Abbreviation hits_of := (fun u => page_hits P u robots).

(** The scan of one sitemap URL: rendered when the URL looks like an
    allergen page, static otherwise (lines 288-290). *)
Definition sitemap_hits (u : string) : list PdfHit :=
  if includes "allergen" u || includes "origin" u
  then js_hits P u robots else page_hits P u robots.

Definition sitemap_scan_events (u : string) : list Event :=
  if includes "allergen" u || includes "origin" u
  then js_events P u robots else page_events u robots.

(** The error the scan of one sitemap URL throws, if it throws: only the
    rendered scanner can. *)
Definition sitemap_scan_error (u : string) : option string :=
  if includes "allergen" u || includes "origin" u
  then js_error P u robots else None.

(** What the loop of [searchSitemapUrlsForPdfs] comes to, and what it
    adds to the state, from the accumulator [pdfLinks]. *)
Fixpoint sitemap_loop (sitemapUrls : list JsVal) (pdfLinks : list PdfHit)
    : Outcome (list PdfHit) * Delta :=
  match sitemapUrls with
  | [] => (Return pdfLinks, dnil)
  | JStr u :: sitemapUrls' =>
      match sitemap_scan_error u with
      | Some err => (Throw err, d_events (sitemap_scan_events u))
      | None =>
          let pdfs := sitemap_hits u in
          let (out, d) := sitemap_loop sitemapUrls' (pdfLinks ++ pdfs) in
          (out, dapp (d_events (sitemap_scan_events u)) (dapp (d_push pdfs) d))
      end
  | JObj _ :: _ => (Throw "sitemapUrl.includes is not a function", dnil)
  | JUndefined :: _ => (Throw "Cannot read properties of undefined", dnil)
  end.

Lemma sitemap_loop_run (sitemapUrls : list JsVal) (pdfLinks : list PdfHit) (st : State) :
  for_of (sitemap_step P robots) sitemapUrls pdfLinks st =
  (fst (sitemap_loop sitemapUrls pdfLinks),
   tell (snd (sitemap_loop sitemapUrls pdfLinks)) st).
Proof.
  revert pdfLinks st. induction sitemapUrls as [|v urls IH]; intros pdfLinks st.
  - cbn. unfold ret. now rewrite tell_nil.
  - cbn [for_of sitemap_loop]. run. destruct v as [u| |].
    + unfold sitemap_step, sitemap_hits, sitemap_scan_events, sitemap_scan_error. run.
      destruct (includes "allergen" u || includes "origin" u).
      * rewrite searchPDFsInPageWithJS_run. unfold js_outcome.
        destruct (js_error P u robots) as [err|]; [reflexivity|].
        run. unfold ret at 1. cbn beta iota.
        rewrite IH. destruct (sitemap_loop urls _) as [out d]. cbn [fst snd].
        now rewrite !tell_tell.
      * rewrite searchPDFsInPage_run. run. unfold ret at 1. cbn beta iota.
        rewrite IH. destruct (sitemap_loop urls _) as [out d]. cbn [fst snd].
        now rewrite !tell_tell.
    + cbn. now rewrite tell_nil.
    + cbn. now rewrite tell_nil.
Qed.

Lemma sitemap_loop_returns_or_throws (sitemapUrls : list JsVal) (pdfLinks : list PdfHit) :
  fst (sitemap_loop sitemapUrls pdfLinks) <> Diverge.
Proof.
  revert pdfLinks. induction sitemapUrls as [|v urls IH]; intros pdfLinks; [discriminate|].
  destruct v as [u| |]; cbn [sitemap_loop]; try discriminate.
  destruct (sitemap_scan_error u); [discriminate|].
  specialize (IH (pdfLinks ++ sitemap_hits u)).
  now destruct (sitemap_loop urls _).
Qed.

(** *** The sub-page phase *)

Definition subpage_list (visitedUrls : gset JsVal) : list string :=
  unvisited_str visitedUrls (subpage_urls P siteUrl robots).

Definition subpage_delta (visitedUrls : gset JsVal) : Delta :=
  let unvisitedUrls := subpage_list visitedUrls in
  dapp (d_events (page_events siteUrl robots))
    (dapp (d_visit (add_history (JStr <$> unvisitedUrls) visitedUrls))
       (if 0 <? length unvisitedUrls then
          dapp (d_dispatch SubpagePhase (JStr <$> unvisitedUrls))
            (dapp (batches_delta P robots (chunks 2 unvisitedUrls))
               (d_push (flat_map hits_of unvisitedUrls)))
        else dnil)).

Lemma subpage_phase_run (pdfLinks : list PdfHit) (visitedUrls : gset JsVal) (st : State) :
  subpage_phase P siteUrl robots pdfLinks visitedUrls st =
  (Return (pdfLinks ++ flat_map hits_of (subpage_list visitedUrls)),
   tell (subpage_delta visitedUrls) st).
Proof.
  unfold subpage_phase, subpage_delta, subpage_list, in_try.
  rewrite getSubpageUrls_run. run. rewrite add_each_run. cbn beta iota.
  destruct (0 <? length (unvisited_str visitedUrls (subpage_urls P siteUrl robots))) eqn:E.
  - run. rewrite searchSubpagesParallel_run by lia. run.
    unfold ret. now rewrite !tell_tell.
  - unfold ret. rewrite !tell_tell, dapp_nil_r.
    destruct (unvisited_str visitedUrls (subpage_urls P siteUrl robots));
      [|discriminate].
    cbn [flat_map]. now rewrite app_nil_r.
Qed.

(** *** The sitemap phase *)

Definition sitemap_list (visitedUrls : gset JsVal) : list JsVal :=
  unvisited visitedUrls (sitemap_urls P siteUrl).

(** What precedes the scan of the sitemap URLs. *)
Definition sitemap_pre (visitedUrls : gset JsVal) : Delta :=
  let unvisitedSitemapUrls := sitemap_list visitedUrls in
  dapp (d_events (sitemap_events P siteUrl))
    (dapp (d_visit (add_history unvisitedSitemapUrls visitedUrls))
       (if 0 <? length unvisitedSitemapUrls
        then d_dispatch SitemapPhase unvisitedSitemapUrls else dnil)).

Lemma sitemap_phase_run (pdfLinks : list PdfHit) (visitedUrls : gset JsVal)
    (rest : list PdfHit -> gset JsVal -> M (list PdfHit)) (st : State) :
  sitemap_phase P siteUrl robots pdfLinks visitedUrls rest st =
  let unvisitedSitemapUrls := sitemap_list visitedUrls in
  let (out, d) := sitemap_loop unvisitedSitemapUrls [] in
  match out with
  | Return sitemapPdfs =>
      rest (pdfLinks ++ sitemapPdfs) (add_result unvisitedSitemapUrls visitedUrls)
           (tell (dapp (sitemap_pre visitedUrls)
                    (dapp d (if 0 <? length unvisitedSitemapUrls
                             then d_push sitemapPdfs else dnil))) st)
  | Throw _ => (Return pdfLinks, tell (dapp (sitemap_pre visitedUrls) d) st)
  | Diverge => (Diverge, tell (dapp (sitemap_pre visitedUrls) d) st)
  end.
Proof.
  unfold sitemap_phase, sitemap_pre, sitemap_list, in_try.
  rewrite getSitemapUrls_run.
  destruct (0 <? length (sitemap_urls P siteUrl)) eqn:E0.
  - run. rewrite add_each_run. cbn beta iota.
    destruct (0 <? length (unvisited visitedUrls (sitemap_urls P siteUrl))) eqn:E.
    + run. unfold searchSitemapUrlsForPdfs. rewrite sitemap_loop_run.
      destruct (sitemap_loop _ []) as [[sitemapPdfs|e|] d]; cbn [fst snd].
      * run. now rewrite !tell_tell, <- !dapp_assoc.
      * now rewrite !tell_tell, <- !dapp_assoc.
      * now rewrite !tell_tell, <- !dapp_assoc.
    + destruct (unvisited visitedUrls (sitemap_urls P siteUrl)); [|discriminate].
      cbn [sitemap_loop length Nat.ltb Nat.leb add_history add_result].
      now rewrite app_nil_r, !tell_tell, <- !dapp_assoc, !dapp_nil_r.
  - destruct (sitemap_urls P siteUrl); [|discriminate].
    cbn [unvisited List.filter sitemap_loop length Nat.ltb Nat.leb add_history add_result].
    now rewrite app_nil_r, <- !dapp_assoc, !dapp_nil_r.
Qed.

(** *** The whole run *)

Abbreviation mainPagePdfs := (page_hits P siteUrl robots).

(** [visitedUrls] after the seed has been added. *)
Definition visited_seed : gset JsVal := {[JStr siteUrl]} ∪ ∅.

(** [visitedUrls] after the sitemap phase. *)
Definition visited_sitemap : gset JsVal :=
  add_result (sitemap_list visited_seed) visited_seed.

Definition seed_delta : Delta :=
  dapp (d_events (robots_events P siteUrl))
    (dapp (d_dispatch SeedPhase [JStr siteUrl])
       (dapp (d_events (page_events siteUrl robots))
          (dapp (d_push mainPagePdfs) (d_visit [visited_seed])))).

(** The list [findAllergyPDFs] returns. *)
Definition run_hits : list PdfHit :=
  match fst (sitemap_loop (sitemap_list visited_seed) []) with
  | Return sitemapPdfs =>
      (mainPagePdfs ++ sitemapPdfs) ++ flat_map hits_of (subpage_list visited_sitemap)
  | _ => mainPagePdfs
  end.

(** What [findAllergyPDFs] adds to the state. *)
Definition run_delta : Delta :=
  let (out, d) := sitemap_loop (sitemap_list visited_seed) [] in
  dapp seed_delta
    (dapp (sitemap_pre visited_seed)
       (dapp d
          match out with
          | Return sitemapPdfs =>
              dapp (if 0 <? length (sitemap_list visited_seed)
                    then d_push sitemapPdfs else dnil)
                   (subpage_delta visited_sitemap)
          | _ => dnil
          end)).

Lemma findAllergyPDFs_run (st : State) :
  findAllergyPDFs P siteUrl st = (Return run_hits, tell run_delta st).
Proof.
  unfold findAllergyPDFs, in_try at 1. rewrite getRobotsRules_run. run.
  unfold in_try at 1. rewrite searchPDFsInPage_run. run.
  rewrite sitemap_phase_run. cbn zeta.
  unfold run_hits, run_delta, seed_delta, visited_sitemap.
  fold visited_seed.
  pose proof (sitemap_loop_returns_or_throws (sitemap_list visited_seed) []) as Hnd.
  destruct (sitemap_loop (sitemap_list visited_seed) []) as [[sitemapPdfs|e|] d];
    cbn [fst snd] in *.
  - rewrite subpage_phase_run. now rewrite !tell_tell, <- !dapp_assoc.
  - now rewrite !tell_tell, <- !dapp_assoc, dapp_nil_r.
  - contradiction.
Qed.

(** *** What the helpers leave alone *)

Definition is_robots_fetch (ev : Event) : bool :=
  match ev with EvFetch RobotsTxt _ => true | _ => false end.

(** The number of requests for robots.txt in a trace. *)
Definition robots_fetches (tr : list Event) : nat :=
  length (List.filter is_robots_fetch tr).

Lemma robots_fetches_app (a b : list Event) :
  robots_fetches (a ++ b) = robots_fetches a + robots_fetches b.
Proof. unfold robots_fetches. now rewrite List.filter_app, length_app. Qed.

(** A delta of a scanning helper: no request for robots.txt, no change to
    the visited history, no dispatch. *)
Definition quiet (d : Delta) : Prop :=
  robots_fetches (d_trace d) = 0 /\ d_visited d = [] /\ d_dispatched d = [].

Lemma quiet_dnil : quiet dnil.
Proof. repeat split. Qed.

Lemma quiet_dapp (a b : Delta) : quiet a -> quiet b -> quiet (dapp a b).
Proof.
  intros (Ha1 & Ha2 & Ha3) (Hb1 & Hb2 & Hb3). unfold quiet, dapp.
  cbn [d_trace d_visited d_dispatched].
  now rewrite robots_fetches_app, Ha1, Ha2, Ha3, Hb1, Hb2, Hb3.
Qed.

Lemma quiet_push (pdfs : list PdfHit) : quiet (d_push pdfs).
Proof. repeat split. Qed.

Lemma quiet_page_events (u : string) (r : option Robots) : quiet (d_events (page_events u r)).
Proof. unfold page_events. destruct (_ && _); repeat split. Qed.

Lemma quiet_js_events (u : string) (r : option Robots) : quiet (d_events (js_events P u r)).
Proof.
  unfold js_events, page_events.
  destruct (_ && _); [repeat split|].
  destruct (puppeteer P u) as [|[|]|[|]|links [|] [|]]; repeat split.
Qed.

Lemma quiet_sitemap_events : quiet (d_events (sitemap_events P siteUrl)).
Proof. unfold sitemap_events. destruct (URL_href P _ _); repeat split. Qed.

Lemma quiet_sitemap_loop (sitemapUrls : list JsVal) (pdfLinks : list PdfHit) :
  quiet (snd (sitemap_loop sitemapUrls pdfLinks)).
Proof.
  revert pdfLinks. induction sitemapUrls as [|v urls IH]; intros pdfLinks;
    [apply quiet_dnil|].
  destruct v as [u| |]; cbn [sitemap_loop]; try apply quiet_dnil.
  assert (Hscan : quiet (d_events (sitemap_scan_events u))).
  { unfold sitemap_scan_events.
    destruct (_ || _); [apply quiet_js_events | apply quiet_page_events]. }
  destruct (sitemap_scan_error u); [exact Hscan|].
  specialize (IH (pdfLinks ++ sitemap_hits u)).
  destruct (sitemap_loop urls _) as [out d]. cbn [snd] in *.
  apply quiet_dapp; [exact Hscan|apply quiet_dapp; [apply quiet_push | exact IH]].
Qed.

Lemma quiet_batches (batches : list (list string)) :
  quiet (batches_delta P robots batches).
Proof.
  induction batches as [|b batches IH]; [apply quiet_dnil|].
  cbn [batches_delta]. apply quiet_dapp; [|exact IH].
  repeat split. cbn [batch_delta d_trace].
  change (EvBatch b :: map EvStart b ++ flat_map (worker_events robots) b)
    with ([EvBatch b] ++ map EvStart b ++ flat_map (worker_events robots) b).
  rewrite !robots_fetches_app.
  assert (H1 : robots_fetches (map EvStart b) = 0).
  { clear. induction b as [|u b IHb]; [reflexivity | exact IHb]. }
  assert (H2 : robots_fetches (flat_map (worker_events robots) b) = 0).
  { clear. induction b as [|u b IHb]; [reflexivity|].
    cbn [flat_map]. rewrite robots_fetches_app, IHb.
    unfold worker_events, page_events. now destruct (_ && _). }
  now rewrite H1, H2.
Qed.

(** *** The ghost fields after a run *)

(** The lists handed to the scanners, phase by phase. *)
Definition run_dispatches : list (Phase * list JsVal) :=
  (SeedPhase, [JStr siteUrl]) ::
  (if 0 <? length (sitemap_list visited_seed)
   then [(SitemapPhase, sitemap_list visited_seed)] else []) ++
  match fst (sitemap_loop (sitemap_list visited_seed) []) with
  | Return _ =>
      if 0 <? length (subpage_list visited_sitemap)
      then [(SubpagePhase, JStr <$> subpage_list visited_sitemap)] else []
  | _ => []
  end.

(** The values of [visitedUrls], add by add. *)
Definition run_history : list (gset JsVal) :=
  visited_seed ::
  add_history (sitemap_list visited_seed) visited_seed ++
  match fst (sitemap_loop (sitemap_list visited_seed) []) with
  | Return _ => add_history (JStr <$> subpage_list visited_sitemap) visited_sitemap
  | _ => []
  end.

Lemma run_delta_dispatched : d_dispatched run_delta = run_dispatches.
Proof.
  unfold run_delta, run_dispatches.
  pose proof (quiet_sitemap_loop (sitemap_list visited_seed) []) as (_ & _ & Hd).
  destruct (sitemap_loop (sitemap_list visited_seed) []) as [out d]. cbn [fst snd] in *.
  unfold seed_delta, sitemap_pre, subpage_delta.
  destruct (quiet_batches (chunks 2 (subpage_list visited_sitemap))) as (_ & _ & Hb).
  destruct out; cbn [dapp d_dispatched d_events d_dispatch d_push d_visit dnil];
    rewrite Hd;
    destruct (0 <? length (sitemap_list visited_seed));
    try destruct (0 <? length (subpage_list visited_sitemap));
    cbn [dapp d_dispatched d_events d_dispatch d_push d_visit dnil app];
    rewrite ?Hb; reflexivity.
Qed.

Lemma run_delta_visited : d_visited run_delta = run_history.
Proof.
  unfold run_delta, run_history.
  pose proof (quiet_sitemap_loop (sitemap_list visited_seed) []) as (_ & Hv & _).
  destruct (sitemap_loop (sitemap_list visited_seed) []) as [out d]. cbn [fst snd] in *.
  unfold seed_delta, sitemap_pre, subpage_delta.
  destruct (quiet_batches (chunks 2 (subpage_list visited_sitemap))) as (_ & Hb & _).
  destruct out; cbn [dapp d_visited d_events d_dispatch d_push d_visit dnil];
    rewrite Hv;
    destruct (0 <? length (sitemap_list visited_seed));
    try destruct (0 <? length (subpage_list visited_sitemap));
    cbn [dapp d_visited d_events d_dispatch d_push d_visit dnil app];
    rewrite ?Hb, ?app_nil_r; reflexivity.
Qed.

Lemma run_delta_robots_fetches : robots_fetches (d_trace run_delta) <= 1.
Proof.
  unfold run_delta.
  pose proof (quiet_sitemap_loop (sitemap_list visited_seed) []) as (Hr & _ & _).
  destruct (sitemap_loop (sitemap_list visited_seed) []) as [out d]. cbn [fst snd] in *.
  unfold seed_delta, sitemap_pre, subpage_delta.
  destruct (quiet_batches (chunks 2 (subpage_list visited_sitemap))) as (Hb & _ & _).
  destruct (quiet_page_events siteUrl robots) as (Hp & _ & _).
  destruct quiet_sitemap_events as (Hs & _ & _).
  cbn [d_events d_trace] in Hp, Hs.
  assert (Hrobots : robots_fetches (robots_events P siteUrl) <= 1).
  { unfold robots_events. destruct (URL_href P _ _); cbn; lia. }
  destruct out;
    destruct (0 <? length (sitemap_list visited_seed));
    try destruct (0 <? length (subpage_list visited_sitemap));
    cbn [dapp d_trace d_events d_dispatch d_push d_visit dnil];
    rewrite ?robots_fetches_app, ?Hr, ?Hb, ?Hp, ?Hs; cbn; lia.
Qed.

End Orchestrator.

(** ** The link classifier *)

(** C2, as stated, fails: a URL whose path ends in [.pdf] but that carries
    a query string is not classified as a PDF, and a URL whose query
    string ends in [.pdf] is, whatever its path. *)
Lemma C2_path_counterexample :
  (SpecWords.path_is_pdf "https://example.test/docs/allergy.pdf?v=2" /\
   SpecWords.keyword_matches "https://example.test/docs/allergy.pdf?v=2" "allergy" /\
   qualifies "https://example.test/docs/allergy.pdf?v=2" "allergy" = false) /\
  (~ SpecWords.path_is_pdf "https://example.test/view?file=allergy.pdf" /\
   qualifies "https://example.test/view?file=allergy.pdf" "allergy" = true).
Proof.
  split; [split; [|split] | split].
  - apply endsWith_spec. vm_compute. reflexivity.
  - exists "allergy". split; [simpl; tauto |].
    right. apply regexp_test_i_spec. vm_compute. reflexivity.
  - vm_compute. reflexivity.
  - intros H. apply endsWith_spec in H. vm_compute in H. discriminate.
  - vm_compute. reflexivity.
Qed.

(** C2 (amended): a candidate qualifies if and only if (a) its full
    absolute URL, query string and fragment included, ends with [.pdf]
    when letter case is ignored, and (b) a keyword of the curated set
    occurs, letter case ignored, in the full absolute URL or in the
    visible link text. *)
Theorem C2_qualifies_iff (absoluteUrl visibleText : string) :
  qualifies absoluteUrl visibleText = true <->
  SpecWords.ends_ci ".pdf" absoluteUrl /\
  SpecWords.keyword_matches absoluteUrl visibleText.
Proof.
  unfold qualifies, SpecWords.keyword_matches.
  rewrite andb_true_iff, isPDF_spec, isAllergyKeyword_spec. reflexivity.
Qed.

(** The rendered scanner classifies with its own copy of the keyword
    array (lines 152-156); the decision is the same. *)
Lemma qualifies_JS (fullUrl linkText : string) :
  isPDF fullUrl && isAllergyKeyword ALLERGY_KEYWORDS_JS fullUrl linkText =
  qualifies fullUrl linkText.
Proof. unfold qualifies. now rewrite isAllergyKeyword_JS. Qed.

(** ** The page scanner under a null policy *)

(** Whatever the page, a scan with a null policy returns no hit: the test
    [robots && isAllowedByRobots(robots, fullUrl)] of line 97 is falsy
    when [robots] is [null]. *)
Lemma searchPDFsInPage_null (P : Platform) (pageUrl : string) (st : State) :
  fst (searchPDFsInPage P pageUrl None st) = Return [].
Proof. rewrite searchPDFsInPage_run. simpl. now rewrite page_hits_null. Qed.

(** C1: on the seed page of the scenario, whose only anchor is
    [<a href="/docs/allergy.pdf">アレルギー情報</a>], the null policy
    allows the target URL, and yet the scan with the null policy returns
    no hit; the expected hit is returned only under a parsed policy that
    allows the target. *)
Theorem C1_null_policy_scan :
  isAllowedByRobots None Site.pdf = true /\
  fst (searchPDFsInPage (Site.platform None) Site.seed None initial) = Return [] /\
  fst (searchPDFsInPage (Site.platform None) Site.seed (Some Site.allowAll) initial)
  = Return [Site.expected].
Proof. repeat split; vm_compute; reflexivity. Qed.

(** ** Counting the hits of a page *)

(** The policy robots-parser builds from a robots.txt without rules, for
    the origin of the site: it answers [true] for every URL of that
    origin and [undefined] for a URL of any other. *)
Definition noRules : Robots :=
  {| isAllowed := fun u _ =>
       if startsWith "https://example.test/" u then Some true else None |}.

(** C3, as stated, fails: the menu page has one anchor (N = 1); its
    candidate satisfies the rule of the specification, path ending in
    [.pdf] and keyword match (K = 1); the parsed policy has no rule and
    allows the target, as it allows every URL of the site; and the scan
    returns no hit, the full URL ending in [?v=2]. *)
Lemma C3_query_string_counterexample :
  let P := Site.platform None in
  let a := {| attr_href := Some "/docs/allergy.pdf?v=2"; textContent := "allergy" |} in
  cheerio_a P Site.menuHtml = [a] /\
  candidate P Site.menuPage a = Some (Site.versionedPdf, "allergy") /\
  SpecWords.path_is_pdf Site.versionedPdf /\
  SpecWords.keyword_matches Site.versionedPdf "allergy" /\
  isAllowedByRobots (Some noRules) Site.menuPage = true /\
  isAllowedByRobots (Some noRules) Site.versionedPdf = true /\
  fst (searchPDFsInPage P Site.menuPage (Some noRules) initial) = Return [].
Proof.
  cbv zeta. split; [reflexivity|]. split; [vm_compute; reflexivity|].
  split; [apply endsWith_spec; vm_compute; reflexivity|].
  split.
  - exists "allergy". split; [simpl; tauto|].
    right. apply regexp_test_i_spec. vm_compute. reflexivity.
  - repeat split; vm_compute; reflexivity.
Qed.

(** C3 (amended): under a parsed policy that lets the page through, the
    scan of a page that is fetched returns exactly one hit for each
    anchor that satisfies the rule the classifier applies (a non-empty
    [href] that resolves to a URL that, as a whole, ends in [.pdf] and
    that matches a keyword in the URL or in the trimmed text) and whose
    target the policy allows.  So it returns exactly as many hits as
    anchors satisfy the rule whenever the policy allows the target of
    each of them; a target for which the policy has no answer, a URL of
    another origin, counts as not allowed. *)
Theorem C3_hits_count (P : Platform) (r : Robots) (pageUrl : string)
    (response : Response) (st : State) :
  isAllowedByRobots (Some r) pageUrl = true ->
  http P pageUrl = Some response ->
  exists hits st',
    searchPDFsInPage P pageUrl (Some r) st = (Return hits, st') /\
    length hits =
    length (List.filter (fun element => satisfies_rule P pageUrl element &&
                                        target_allowed P r pageUrl element)
                        (cheerio_a P (body response))) /\
    (Forall (fun element => satisfies_rule P pageUrl element = true ->
                            target_allowed P r pageUrl element = true)
            (cheerio_a P (body response)) ->
     length hits =
     length (List.filter (satisfies_rule P pageUrl) (cheerio_a P (body response)))).
Proof.
  intros Hallowed Hhttp. rewrite searchPDFsInPage_run. eexists _, _.
  split; [reflexivity|].
  rewrite (page_hits_count P r pageUrl response Hallowed Hhttp).
  split; [reflexivity|]. intros Hall. f_equal.
  induction Hall as [|el anchors Hel _ IH]; [reflexivity|].
  cbn [List.filter]. rewrite IH.
  destruct (satisfies_rule P pageUrl el); [|reflexivity]. now rewrite Hel.
Qed.

(** The seed page, with a second link that points to a copy of the
    document on another origin. *)
Definition mirrored_site : Platform :=
  {| URL_href := fun input base =>
       if String.eqb input "https://cdn.example.net/allergy.pdf"
       then Some "https://cdn.example.net/allergy.pdf"
       else Site.resolve input base;
     http := Site.serve (Some "");
     robotsParser := fun _ _ => noRules;
     cheerio_a := fun html =>
       if String.eqb html Site.seedHtml then
         [ {| attr_href := Some "/docs/allergy.pdf"; textContent := "アレルギー情報" |};
           {| attr_href := Some "https://cdn.example.net/allergy.pdf";
              textContent := "allergy" |} ]
       else [];
     parseStringPromise := Site.parse;
     puppeteer := Site.render |}.

(** On that page both anchors satisfy the rule (K = 2); the policy of the
    site allows the target of the first and has no answer for the second;
    the scan returns one hit. *)
Lemma C3_seed_page :
  exists hits st',
    searchPDFsInPage mirrored_site Site.seed (Some noRules) initial = (Return hits, st') /\
    length (List.filter (satisfies_rule mirrored_site Site.seed)
                        (cheerio_a mirrored_site Site.seedHtml)) = 2 /\
    length hits = 1.
Proof.
  destruct (C3_hits_count mirrored_site noRules Site.seed
              {| ok := true; body := Site.seedHtml |} initial
              eq_refl eq_refl) as (hits & st' & Hrun & Hcount & _).
  exists hits, st'. split; [exact Hrun|]. split; [vm_compute; reflexivity|].
  rewrite Hcount. vm_compute. reflexivity.
Defined.

(** ** The batch scheduler *)

Lemma flat_map_concat {A B} (f : A -> list B) (ls : list (list A)) :
  flat_map f (concat ls) = concat (map (flat_map f) ls).
Proof.
  induction ls as [|l ls IH]; [reflexivity|].
  cbn [concat map]. now rewrite flat_map_app, IH.
Qed.

(** C6: for a positive [maxConcurrent], [searchSubpagesParallel] returns;
    the batches it slices off are, in order, the consecutive slices of
    [maxConcurrent] URLs of its list (the [k]-th batch starts at index
    [k * maxConcurrent]); never more than [maxConcurrent] workers are in
    flight; none is in flight when the next batch is sliced off; and the
    result is the concatenation of the results of the batches in batch
    order. *)
Theorem C6_batches (P : Platform) (robots : option Robots) (urls : list string)
    (maxConcurrent : nat) (st : State) :
  0 < maxConcurrent ->
  exists hits st' evs,
    searchSubpagesParallel P urls robots maxConcurrent st = (Return hits, st') /\
    trace st' = trace st ++ evs /\
    batches_of evs = chunks maxConcurrent urls /\
    (forall k, chunks maxConcurrent urls !! k =
               if k * maxConcurrent <? length urls
               then Some (slice (k * maxConcurrent) (k * maxConcurrent + maxConcurrent) urls)
               else None) /\
    (forall pre post, evs = pre ++ post -> in_flight pre <= maxConcurrent) /\
    (forall pre b post, evs = pre ++ EvBatch b :: post -> in_flight pre = 0) /\
    hits = concat (map (flat_map (fun u => page_hits P u robots))
                       (chunks maxConcurrent urls)).
Proof.
  intros Hmc.
  exists (flat_map (fun u => page_hits P u robots) urls),
         (tell (batches_delta P robots (chunks maxConcurrent urls)) st),
         (d_trace (batches_delta P robots (chunks maxConcurrent urls))).
  pose proof (flight_batches P robots maxConcurrent (chunks maxConcurrent urls)
                (chunks_bounded maxConcurrent Hmc urls)) as Hflight.
  repeat split.
  - now apply searchSubpagesParallel_run.
  - apply batches_of_delta.
  - intros k. rewrite (chunks_lookup maxConcurrent Hmc). unfold slice.
    now replace (k * maxConcurrent + maxConcurrent - k * maxConcurrent)
      with maxConcurrent by lia.
  - intros pre post Heq.
    exact (proj1 (flight_sound maxConcurrent 0 0 _ Hflight (Nat.le_0_l _) pre post Heq)).
  - intros pre b post Heq.
    exact (proj2 (flight_sound maxConcurrent 0 0 _ Hflight (Nat.le_0_l _) pre _ Heq)
                 b post eq_refl).
  - rewrite <- flat_map_concat. now rewrite (chunks_concat maxConcurrent Hmc).
Qed.

(** Five URLs with [maxConcurrent = 2]: three batches, of sizes 2, 2, 1. *)
Lemma C6_five_urls :
  exists hits st' evs,
    searchSubpagesParallel (Site.platform None)
      [ "https://example.test/a"; "https://example.test/b"; "https://example.test/c";
        "https://example.test/d"; "https://example.test/e" ] None 2 initial
    = (Return hits, st') /\
    trace st' = evs /\
    map (@length string) (batches_of evs) = [2; 2; 1] /\
    (forall pre post, evs = pre ++ post -> in_flight pre <= 2).
Proof.
  destruct (C6_batches (Site.platform None) None
              [ "https://example.test/a"; "https://example.test/b";
                "https://example.test/c"; "https://example.test/d";
                "https://example.test/e" ] 2 initial Nat.lt_0_2)
    as (hits & st' & evs & Hrun & Htrace & Hbatches & _ & Hflight & _).
  exists hits, st', evs. repeat split.
  - exact Hrun.
  - exact Htrace.
  - rewrite Hbatches. reflexivity.
  - exact Hflight.
Defined.

Lemma map_source_page_hits (P : Platform) (robots : option Robots) (u : string) :
  map source (page_hits P u robots) = repeat u (length (page_hits P u robots)).
Proof.
  pose proof (page_hits_source P u robots) as H.
  induction H as [|h l Hh _ IH]; [reflexivity|]. simpl. now rewrite Hh, IH.
Qed.

(** C10: for a positive [maxConcurrent], the result of
    [searchSubpagesParallel] is the concatenation, in the order of the
    input list, of the hits of each URL; so the sources of the hits list
    the input URLs in input order, each as often as its page has hits. *)
Theorem C10_input_order (P : Platform) (robots : option Robots) (urls : list string)
    (maxConcurrent : nat) (st : State) :
  0 < maxConcurrent ->
  exists hits st',
    searchSubpagesParallel P urls robots maxConcurrent st = (Return hits, st') /\
    hits = flat_map (fun u => page_hits P u robots) urls /\
    map source hits = flat_map (fun u => repeat u (length (page_hits P u robots))) urls.
Proof.
  intros Hmc. eexists _, _. split; [now apply searchSubpagesParallel_run|].
  split; [reflexivity|].
  induction urls as [|u urls IH]; [reflexivity|].
  cbn [flat_map]. now rewrite map_app, IH, map_source_page_hits.
Qed.

Lemma C10_two_pages :
  exists hits st',
    searchSubpagesParallel (Site.platform None) [Site.allergenPage; Site.seed]
      (Some Site.allowAll) 2 initial = (Return hits, st') /\
    map source hits = [Site.allergenPage; Site.seed].
Proof.
  destruct (C10_input_order (Site.platform None) (Some Site.allowAll)
              [Site.allergenPage; Site.seed] 2 initial Nat.lt_0_2)
    as (hits & st' & Hrun & _ & Hsrc).
  exists hits, st'. split; [exact Hrun|]. rewrite Hsrc. reflexivity.
Defined.

(** ** The rendered page scanner *)

Definition launched (tr : list Event) : nat :=
  length (List.filter (fun ev => match ev with EvLaunch => true | _ => false end) tr).

Definition closed (tr : list Event) : nat :=
  length (List.filter (fun ev => match ev with EvClose => true | _ => false end) tr).

Lemma page_events_no_browser (pageUrl : string) (robots : option Robots) :
  launched (page_events pageUrl robots) = 0 /\ closed (page_events pageUrl robots) = 0.
Proof. unfold page_events. now destruct (_ && _). Qed.

(** A rendering failure: [launch], [newPage], [goto] or [evaluate]
    rejects. *)
Definition rendering_failed (outcome : RenderOutcome) : bool :=
  match outcome with
  | LaunchFails | NewPageFails _ | PageFails _ => true
  | Rendered _ _ _ => false
  end.

Lemma handler_events_browser (close : CloseOutcome) (pageUrl : string)
    (robots : option Robots) :
  closed (handler_events close (page_events pageUrl robots)) =
  (match close with CloseResolves => 1 | CloseRejects _ => 0 end) /\
  launched (handler_events close (page_events pageUrl robots)) = 0.
Proof.
  destruct (page_events_no_browser pageUrl robots) as [Hl Hc].
  destruct close; unfold launched, closed in *; cbn [handler_events List.filter length];
    [now rewrite Hl, Hc | split; reflexivity].
Qed.

(** The site, with a browser that crashes while it loads a page: the
    navigation rejects and so does the call of [browser.close()]. *)
Definition crashing_site : Platform :=
  {| URL_href := Site.resolve;
     http := Site.serve (Some "");
     robotsParser := fun _ _ => Site.allowAll;
     cheerio_a := Site.anchors;
     parseStringPromise := Site.parse;
     puppeteer := fun _ => PageFails (CloseRejects "Target closed") |}.

(** C7: what [searchPDFsInPageWithJS] does when rendering fails, at
    launch or at any later step.  When the handler's call of
    [browser.close()] resolves, or no browser was launched, it returns
    what [searchPDFsInPage] returns for the same URL and policy, and
    every browser it launched has been closed.  When that call rejects,
    the function throws the error of [browser.close()]: nothing is
    returned, the static scan is never run, and the browser it launched
    has not been closed. *)
Theorem C7_render_failure (P : Platform) (pageUrl : string)
    (robots : option Robots) (st : State) :
  rendering_failed (puppeteer P pageUrl) = true ->
  exists evs,
    trace (snd (searchPDFsInPageWithJS P pageUrl robots st)) = trace st ++ evs /\
    match js_error P pageUrl robots with
    | None =>
        (exists hits,
            fst (searchPDFsInPageWithJS P pageUrl robots st) = Return hits /\
            forall st0, fst (searchPDFsInPage P pageUrl robots st0) = Return hits) /\
        launched evs = closed evs
    | Some err =>
        fst (searchPDFsInPageWithJS P pageUrl robots st) = Throw err /\
        launched evs = 1 /\ closed evs = 0 /\
        (forall u, ~ In (EvFetch Page u) evs)
    end.
Proof.
  intros Hfail. exists (js_events P pageUrl robots).
  rewrite searchPDFsInPageWithJS_run. cbn [fst snd].
  split; [reflexivity|].
  unfold js_outcome, js_error, js_hits, js_events, page_hits.
  destruct (truthy_robots robots && negb (isAllowedByRobots robots pageUrl)) eqn:G.
  - split; [|reflexivity]. exists []. split; [reflexivity|].
    intros st0. rewrite searchPDFsInPage_run. unfold page_hits. now rewrite G.
  - assert (Hstatic : forall st0,
               fst (searchPDFsInPage P pageUrl robots st0) =
               Return match http P pageUrl with
                      | Some response =>
                          fold_left (each_a P pageUrl robots) (cheerio_a P (body response)) []
                      | None => []
                      end).
    { intros st0. rewrite searchPDFsInPage_run. unfold page_hits. now rewrite G. }
    destruct (page_events_no_browser pageUrl robots) as [Hl Hc].
    destruct (puppeteer P pageUrl) as [|close|close|links close close_again];
      [| | |discriminate]; cbn [handler_error].
    + split; [eexists; split; [reflexivity | exact Hstatic]|]. now rewrite Hl, Hc.
    + destruct (handler_events_browser close pageUrl robots) as [Hhc Hhl].
      destruct close as [|err]; cbn [close_error].
      * split; [eexists; split; [reflexivity | exact Hstatic]|].
        unfold launched, closed in *. cbn [List.filter length] in *. lia.
      * split; [reflexivity|]. split; [reflexivity|]. split; [reflexivity|].
        intros u [H | [H | []]]; discriminate.
    + destruct (handler_events_browser close pageUrl robots) as [Hhc Hhl].
      destruct close as [|err]; cbn [close_error].
      * split; [eexists; split; [reflexivity | exact Hstatic]|].
        unfold launched, closed in *. cbn [List.filter length] in *. lia.
      * split; [reflexivity|]. split; [reflexivity|]. split; [reflexivity|].
        intros u [H | [H | [H | []]]]; discriminate.
Qed.

(** On the site, the page [/allergen] holds one hit, which the static
    scan returns.  When the browser crashes while it loads the page and
    its [close] rejects, the rendered scan of the page throws instead of
    returning that hit. *)
Lemma C7_crashed_browser :
  fst (searchPDFsInPage crashing_site Site.allergenPage (Some Site.allowAll) initial)
  = Return [ {| url := Site.pdf2; text := "Ingredients"; source := Site.allergenPage |} ] /\
  fst (searchPDFsInPageWithJS crashing_site Site.allergenPage (Some Site.allowAll) initial)
  = Throw "Target closed".
Proof.
  split; [vm_compute; reflexivity|].
  destruct (C7_render_failure crashing_site Site.allergenPage (Some Site.allowAll)
              initial eq_refl) as (evs & _ & H).
  change (js_error crashing_site Site.allergenPage (Some Site.allowAll))
    with (Some "Target closed") in H.
  exact (proj1 H).
Defined.

(** ** The sitemap discoverer *)

Lemma locations_Forall2 (items : list UrlEntry) (vs : list JsVal) :
  Forall2 (fun item v => exists more, loc item = Some (v :: more)) items vs ->
  locations items = Some vs.
Proof.
  induction 1 as [|item v items vs [more Hloc] _ IH]; [reflexivity|].
  cbn [locations]. unfold loc_0. now rewrite Hloc, IH.
Qed.

(** [locations] fails exactly when an entry has no [loc]; otherwise it
    yields [item.loc[0]] of each entry, in order. *)
Lemma locations_spec (items : list UrlEntry) :
  match locations items with
  | Some vs => Forall2 (fun item v => loc_0 item = Some v) items vs
  | None => exists item, item ∈ items /\ loc item = None
  end.
Proof.
  induction items as [|item items IH]; cbn [locations]; [constructor|].
  destruct (loc_0 item) as [v|] eqn:Hv.
  - destruct (locations items) as [vs|].
    + now constructor.
    + destruct IH as (x & Hx & Hloc). exists x.
      split; [now apply list_elem_of_further | exact Hloc].
  - exists item. split; [apply list_elem_of_here|].
    unfold loc_0 in Hv. destruct (loc item) as [[|v more]|]; [discriminate.. | reflexivity].
Qed.

(** The site, with a sitemap whose second entry has no [loc] element. *)
Definition gappy_site : Platform :=
  {| URL_href := Site.resolve;
     http := Site.serve (Some "");
     robotsParser := fun _ _ => Site.allowAll;
     cheerio_a := Site.anchors;
     parseStringPromise := fun _ =>
       Some {| urlset_url := Some [ {| loc := Some [JStr Site.allergenPage] |};
                                    {| loc := None |} ] |};
     puppeteer := Site.render |}.

(** C9, as stated, fails, in three ways.  For the site URL
    [https://example.test/menu] the request goes to [/sitemap.xml] of
    the origin, not to [<siteUrl>/sitemap.xml].  On the site, whose
    sitemap is fetched and parsed with success, the value returned for
    the second entry is an object, not a location string.  And when the
    second entry has no [loc], the result is empty although the first
    entry has a location. *)
Lemma C9_not_the_location_strings :
  (trace (snd (getSitemapUrls (Site.platform None) Site.menuPage initial))
   = [EvFetch Sitemap "https://example.test/sitemap.xml"] /\
   String.append Site.menuPage "/sitemap.xml" = "https://example.test/menu/sitemap.xml") /\
  (fst (getSitemapUrls (Site.platform None) Site.seed initial)
   = Return [JStr Site.allergenPage; JObj 0] /\
   ~ exists locs : list string, [JStr Site.allergenPage; JObj 0] = JStr <$> locs) /\
  fst (getSitemapUrls gappy_site Site.seed initial) = Return [].
Proof.
  split; [split; vm_compute; reflexivity|]. split; [split|].
  - vm_compute. reflexivity.
  - intros (locs & H). destruct locs as [|a [|b locs]]; discriminate.
  - vm_compute. reflexivity.
Qed.

(** C9 (amended): [getSitemapUrls] never throws.  It requests the URL
    that [/sitemap.xml] resolves to against the site URL, and nothing
    when that URL cannot be built.  It returns the empty list when the
    URL cannot be built, when the request fails, when the status is not a
    success, when the XML does not parse, when the document has no
    urlset entries, and when some entry has no [loc].  Otherwise it
    returns [item.loc[0]] of each entry, in document order: the
    location string of an entry whose [loc] is text, so that a sitemap
    of text-only locations comes back as the list of its location
    strings. *)
Theorem C9_getSitemapUrls (P : Platform) (siteUrl : string) (st : State) :
  exists urls st',
    getSitemapUrls P siteUrl st = (Return urls, st') /\
    (URL_href P "/sitemap.xml" siteUrl = None -> urls = [] /\ trace st' = trace st) /\
    forall sitemapUrl,
      URL_href P "/sitemap.xml" siteUrl = Some sitemapUrl ->
      trace st' = trace st ++ [EvFetch Sitemap sitemapUrl] /\
      (http P sitemapUrl = None -> urls = []) /\
      (forall response,
          http P sitemapUrl = Some response -> ok response = false -> urls = []) /\
      (forall response,
          http P sitemapUrl = Some response -> ok response = true ->
          parseStringPromise P (body response) = None -> urls = []) /\
      (forall response result,
          http P sitemapUrl = Some response -> ok response = true ->
          parseStringPromise P (body response) = Some result ->
          urlset_url result = None -> urls = []) /\
      (forall response result items,
          http P sitemapUrl = Some response -> ok response = true ->
          parseStringPromise P (body response) = Some result ->
          urlset_url result = Some items ->
          ((exists item, item ∈ items /\ loc item = None) -> urls = []) /\
          ((forall item, item ∈ items -> loc item <> None) ->
           Forall2 (fun item v => loc_0 item = Some v) items urls) /\
          (forall locs,
              Forall2 (fun item s => exists more, loc item = Some (JStr s :: more))
                      items locs ->
              urls = JStr <$> locs)).
Proof.
  exists (sitemap_urls P siteUrl), (tell (d_events (sitemap_events P siteUrl)) st).
  split; [apply getSitemapUrls_run|].
  unfold sitemap_urls, sitemap_events. split.
  { intros ->. split; [reflexivity|]. cbn. now rewrite app_nil_r. }
  intros sitemapUrl Hurl. rewrite Hurl.
  split; [reflexivity|].
  split; [now intros ->|].
  split; [now intros response -> ->|].
  split; [now intros response -> -> ->|].
  split; [now intros response result -> -> -> ->|].
  intros response result items Hhttp Hok Hparse Hitems.
  rewrite Hhttp, Hok, Hparse, Hitems.
  pose proof (locations_spec items) as Hspec. split; [|split].
  - intros (item & Hitem & Hloc). destruct (locations items) as [vs|]; [|reflexivity].
    exfalso. clear Hitems. revert Hitem. induction Hspec as [|x v items vs Hx _ IH];
      [now intros H%elem_of_nil|].
    intros [-> | Hin]%elem_of_cons; [|now apply IH].
    unfold loc_0 in Hx. rewrite Hloc in Hx. discriminate.
  - intros Hall. destruct (locations items) as [vs|]; [exact Hspec|].
    destruct Hspec as (item & Hitem & Hloc). now destruct (Hall item Hitem).
  - intros locs Hlocs.
    rewrite (locations_Forall2 items (JStr <$> locs)); [reflexivity|].
    clear -Hlocs. induction Hlocs; cbn [fmap list_fmap]; constructor; assumption.
Qed.

(** On the site: the sitemap is requested at [/sitemap.xml] of the origin
    and [item.loc[0]] of its two entries comes back in document order,
    a string and an object. *)
Lemma C9_site_sitemap :
  exists urls st',
    getSitemapUrls (Site.platform None) Site.seed initial = (Return urls, st') /\
    trace st' = [EvFetch Sitemap Site.sitemapUrl] /\
    Forall2 (fun item v => loc_0 item = Some v)
            [ {| loc := Some [JStr Site.allergenPage] |}; {| loc := Some [JObj 0] |} ]
            urls.
Proof.
  destruct (C9_getSitemapUrls (Site.platform None) Site.seed initial)
    as (urls & st' & Hrun & _ & Hspec).
  destruct (Hspec Site.sitemapUrl eq_refl) as (Htrace & _ & _ & _ & _ & Hok).
  exists urls, st'. split; [exact Hrun|]. split; [exact Htrace|].
  refine (proj1 (proj2 (Hok {| ok := true; body := Site.sitemapXml |} _ _
                            eq_refl eq_refl eq_refl eq_refl)) _).
  intros item Hitem.
  repeat (apply elem_of_cons in Hitem as [-> | Hitem]; [discriminate|]).
  now apply elem_of_nil in Hitem.
Defined.

(** ** The cache of robots policies *)

(** C4, as stated, fails: when the request for robots.txt fails, nothing
    is cached (the [catch] of lines 413-416 returns without touching
    [robotsCache]) and the second call issues a second request. *)
Lemma C4_failed_fetch_is_repeated :
  fst (get_twice (Site.platform None) Site.seed initial) = Return (None, None) /\
  robots_fetches (trace (snd (get_twice (Site.platform None) Site.seed initial))) = 2.
Proof. split; vm_compute; reflexivity. Qed.

Lemma getRobotsRulesWithCache_miss (P : Platform) (origin robotsUrl : string)
    (response : Response) (st : State) :
  URL_href P "/robots.txt" origin = Some robotsUrl ->
  http P robotsUrl = Some response ->
  robotsCache st !! origin = None ->
  getRobotsRulesWithCache P origin st =
  (Return (Some (robotsParser P robotsUrl (body response))),
   {| robotsCache := <[origin := robotsParser P robotsUrl (body response)]> (robotsCache st);
      trace := trace st ++ [EvFetch RobotsTxt robotsUrl];
      visitedHistory := visitedHistory st;
      dispatched := dispatched st;
      gathered := gathered st |}).
Proof.
  intros Hurl Hhttp Hmiss. unfold getRobotsRulesWithCache. rewrite Hmiss.
  unfold try_catch, new_URL, fetch. rewrite Hurl. run. unfold ret at 1. cbn beta iota.
  run. rewrite Hhttp. unfold ret at 1. cbn beta iota. run.
  unfold robotsCache_set, ret, tell. cbn. now rewrite !app_nil_r.
Qed.

Lemma getRobotsRulesWithCache_hit (P : Platform) (origin : string) (rules : Robots)
    (st : State) :
  robotsCache st !! origin = Some rules ->
  getRobotsRulesWithCache P origin st = (Return (Some rules), st).
Proof. intros Hhit. unfold getRobotsRulesWithCache. now rewrite Hhit. Qed.

(** A call that misses the cache: it answers as [getRobotsRules] does,
    issues the request that [getRobotsRules] issues, and stores the
    policy only when there is one. *)
Lemma getRobotsRulesWithCache_on_miss (P : Platform) (baseUrl : string) (st : State) :
  robotsCache st !! baseUrl = None ->
  getRobotsRulesWithCache P baseUrl st =
  (Return (robots_rules P baseUrl),
   {| robotsCache := match robots_rules P baseUrl with
                     | Some rules => <[baseUrl := rules]> (robotsCache st)
                     | None => robotsCache st
                     end;
      trace := trace st ++ robots_events P baseUrl;
      visitedHistory := visitedHistory st;
      dispatched := dispatched st;
      gathered := gathered st |}).
Proof.
  intros Hmiss. unfold robots_rules, robots_events.
  destruct (URL_href P "/robots.txt" baseUrl) as [robotsUrl|] eqn:Hurl.
  - destruct (http P robotsUrl) as [response|] eqn:Hhttp.
    + apply (getRobotsRulesWithCache_miss P baseUrl robotsUrl response st Hurl Hhttp Hmiss).
    + unfold getRobotsRulesWithCache. rewrite Hmiss.
      unfold try_catch, new_URL, fetch. rewrite Hurl. run. unfold ret at 1.
      cbn beta iota. run. rewrite Hhttp. unfold throw, ret, tell. cbn.
      now rewrite !app_nil_r.
  - unfold getRobotsRulesWithCache. rewrite Hmiss.
    unfold try_catch, new_URL. rewrite Hurl. unfold throw, ret.
    destruct st. cbn. now rewrite app_nil_r.
Qed.

(** C4 (amended).  Two calls of [getRobotsRulesWithCache] with the same
    base URL, the first of which misses the cache: when the request for
    robots.txt succeeds they issue exactly one request and the second
    call returns the cached policy; when it fails nothing is cached and
    they issue two; when the URL of robots.txt cannot be built they issue
    none.  The cache is keyed by the base URL as a string: a call with
    one base URL leaves every other base URL uncached, one of the same
    origin included, and a call with that other base URL issues its own
    request.  A run of [findAllergyPDFs] issues at most one request for
    robots.txt. *)
Theorem C4_robots_fetches (P : Platform) :
  (forall baseUrl st,
      robotsCache st !! baseUrl = None ->
      exists first second st',
        get_twice P baseUrl st = (Return (first, second), st') /\
        match URL_href P "/robots.txt" baseUrl with
        | Some robotsUrl =>
            match http P robotsUrl with
            | Some response =>
                first = Some (robotsParser P robotsUrl (body response)) /\
                second = first /\
                trace st' = trace st ++ [EvFetch RobotsTxt robotsUrl]
            | None =>
                first = None /\ second = None /\
                trace st' = trace st ++ [EvFetch RobotsTxt robotsUrl;
                                         EvFetch RobotsTxt robotsUrl]
            end
        | None => first = None /\ second = None /\ trace st' = trace st
        end) /\
  (forall baseUrl other st,
      other <> baseUrl ->
      robotsCache st !! other = None ->
      exists rules st1 rules' st2,
        getRobotsRulesWithCache P baseUrl st = (Return rules, st1) /\
        robotsCache st1 !! other = None /\
        getRobotsRulesWithCache P other st1 = (Return rules', st2) /\
        trace st2 = trace st1 ++ match URL_href P "/robots.txt" other with
                                 | Some robotsUrl => [EvFetch RobotsTxt robotsUrl]
                                 | None => []
                                 end) /\
  (forall siteUrl st,
      exists hits st1 evs,
        findAllergyPDFs P siteUrl st = (Return hits, st1) /\
        trace st1 = trace st ++ evs /\
        robots_fetches evs <= 1).
Proof.
  split; [|split].
  - intros baseUrl st Hmiss. unfold get_twice. run.
    rewrite (getRobotsRulesWithCache_on_miss P baseUrl st Hmiss). cbn beta iota. run.
    unfold robots_rules, robots_events.
    destruct (URL_href P "/robots.txt" baseUrl) as [robotsUrl|] eqn:Hurl.
    + destruct (http P robotsUrl) as [response|] eqn:Hhttp.
      * rewrite (getRobotsRulesWithCache_hit _ _ (robotsParser P robotsUrl (body response)))
          by (cbn [robotsCache]; apply lookup_insert_eq).
        eexists _, _, _. split; [reflexivity|]. repeat split.
      * rewrite getRobotsRulesWithCache_on_miss by exact Hmiss.
        unfold robots_rules, robots_events. rewrite Hurl, Hhttp.
        eexists _, _, _. split; [reflexivity|]. cbn [trace].
        rewrite <- app_assoc. repeat split.
    + rewrite getRobotsRulesWithCache_on_miss by exact Hmiss.
      unfold robots_rules, robots_events. rewrite Hurl.
      eexists _, _, _. split; [reflexivity|]. cbn [trace].
      rewrite !app_nil_r. repeat split.
  - intros baseUrl other st Hne Hmiss.
    assert (H1 : exists rules st1,
               getRobotsRulesWithCache P baseUrl st = (Return rules, st1) /\
               robotsCache st1 !! other = None).
    { destruct (robotsCache st !! baseUrl) as [r|] eqn:Hbase.
      - rewrite (getRobotsRulesWithCache_hit P baseUrl r st Hbase).
        eexists _, _. split; [reflexivity | exact Hmiss].
      - rewrite (getRobotsRulesWithCache_on_miss P baseUrl st Hbase).
        eexists _, _. split; [reflexivity|]. cbn [robotsCache].
        destruct (robots_rules P baseUrl); [|exact Hmiss].
        now rewrite lookup_insert_ne. }
    destruct H1 as (rules & st1 & Hrun1 & Hmiss1).
    exists rules, st1. rewrite (getRobotsRulesWithCache_on_miss P other st1 Hmiss1).
    eexists _, _. split; [exact Hrun1|]. split; [exact Hmiss1|].
    split; reflexivity.
  - intros siteUrl st.
    exists (run_hits P siteUrl), (tell (run_delta P siteUrl) st),
           (d_trace (run_delta P siteUrl)).
    split; [apply findAllergyPDFs_run|]. split; [reflexivity|].
    apply run_delta_robots_fetches.
Qed.

(** On the site with an empty robots.txt: one request for two calls with
    the seed URL; a second request for the same robots.txt when the next
    call names another page of the same origin; and one request for a
    whole run. *)
Lemma C4_site_robots :
  (exists rules st',
      get_twice (Site.platform (Some "")) Site.seed initial
      = (Return (Some rules, Some rules), st') /\
      trace st' = [EvFetch RobotsTxt Site.robotsUrl]) /\
  (exists rules st1 rules' st2,
      getRobotsRulesWithCache (Site.platform (Some "")) Site.seed initial
      = (Return rules, st1) /\
      getRobotsRulesWithCache (Site.platform (Some "")) Site.allergenPage st1
      = (Return rules', st2) /\
      trace st2 = trace st1 ++ [EvFetch RobotsTxt Site.robotsUrl]) /\
  (exists hits st1 evs,
      findAllergyPDFs (Site.platform (Some "")) Site.seed initial = (Return hits, st1) /\
      trace st1 = evs /\
      robots_fetches evs <= 1).
Proof.
  destruct (C4_robots_fetches (Site.platform (Some ""))) as (Htwice & Hother & Hrun).
  split; [|split].
  - destruct (Htwice Site.seed initial eq_refl) as (first & second & st' & Hcalls & H).
    change (URL_href (Site.platform (Some "")) "/robots.txt" Site.seed)
      with (Some Site.robotsUrl) in H.
    change (http (Site.platform (Some "")) Site.robotsUrl)
      with (Some {| ok := true; body := "" |}) in H.
    destruct H as (-> & -> & Htrace).
    eexists _, st'. split; [exact Hcalls | exact Htrace].
  - destruct (Hother Site.seed Site.allergenPage initial ltac:(discriminate) eq_refl)
      as (rules & st1 & rules' & st2 & H1 & _ & H2 & Htrace).
    exists rules, st1, rules', st2. split; [exact H1|]. split; [exact H2 | exact Htrace].
  - exact (Hrun Site.seed initial).
Defined.

(** ** The visited set and the three phases *)

(** No URL is handed to the scanners of two different phases. *)
Definition phases_apart (dispatches : list (Phase * list JsVal)) : Prop :=
  forall p1 l1 p2 l2 u,
    (p1, l1) ∈ dispatches -> (p2, l2) ∈ dispatches -> u ∈ l1 -> u ∈ l2 -> p1 = p2.

Lemma elem_of_unvisited (V : gset JsVal) (urls : list JsVal) (u : JsVal) :
  u ∈ unvisited V urls <-> u ∈ urls /\ u ∉ V.
Proof.
  unfold unvisited. rewrite !list_elem_of_In, List.filter_In, negb_true_iff.
  rewrite bool_decide_eq_false. reflexivity.
Qed.

Lemma elem_of_unvisited_str (V : gset JsVal) (urls : list string) (u : JsVal) :
  u ∈ JStr <$> unvisited_str V urls -> u ∉ V.
Proof.
  rewrite list_elem_of_fmap. intros (x & -> & Hx). unfold unvisited_str in Hx.
  apply list_elem_of_In, List.filter_In in Hx. destruct Hx as [_ Hx].
  now apply negb_true_iff, bool_decide_eq_false in Hx.
Qed.

Lemma phases_apart_three (seed : JsVal) (sitemapList subpageList : list JsVal)
    (b1 b2 : bool) :
  (forall u, u ∈ sitemapList -> u <> seed) ->
  (forall u, u ∈ subpageList -> u <> seed /\ u ∉ sitemapList) ->
  phases_apart ((SeedPhase, [seed]) ::
                (if b1 then [(SitemapPhase, sitemapList)] else []) ++
                (if b2 then [(SubpagePhase, subpageList)] else [])).
Proof.
  intros H1 H2 p1 l1 p2 l2 u Hd1 Hd2 Hu1 Hu2.
  assert (Hcases : forall p l,
             (p, l) ∈ (SeedPhase, [seed]) ::
                      (if b1 then [(SitemapPhase, sitemapList)] else []) ++
                      (if b2 then [(SubpagePhase, subpageList)] else []) ->
             (p = SeedPhase /\ l = [seed]) \/
             (p = SitemapPhase /\ l = sitemapList) \/
             (p = SubpagePhase /\ l = subpageList)).
  { intros p l H. destruct b1, b2; cbn [app] in H;
      repeat (apply elem_of_cons in H; destruct H as [H|H]);
      try (apply elem_of_nil in H; contradiction);
      injection H as -> ->; tauto. }
  destruct (Hcases _ _ Hd1) as [[-> ->] | [[-> ->] | [-> ->]]];
    destruct (Hcases _ _ Hd2) as [[-> ->] | [[-> ->] | [-> ->]]];
    try reflexivity; exfalso.
  - apply list_elem_of_singleton in Hu1. exact (H1 u Hu2 Hu1).
  - apply list_elem_of_singleton in Hu1. exact (proj1 (H2 u Hu2) Hu1).
  - apply list_elem_of_singleton in Hu2. exact (H1 u Hu1 Hu2).
  - exact (proj2 (H2 u Hu2) Hu1).
  - apply list_elem_of_singleton in Hu2. exact (proj1 (H2 u Hu1) Hu2).
  - exact (proj2 (H2 u Hu1) Hu2).
Qed.

Lemma run_dispatches_apart (P : Platform) (siteUrl : string) :
  phases_apart (run_dispatches P siteUrl).
Proof.
  unfold run_dispatches.
  set (b1 := 0 <? length (sitemap_list P siteUrl (visited_seed siteUrl))).
  assert (Hb2 : exists b2 : bool,
             match fst (sitemap_loop P siteUrl
                          (sitemap_list P siteUrl (visited_seed siteUrl)) []) with
             | Return _ =>
                 if 0 <? length (subpage_list P siteUrl (visited_sitemap P siteUrl))
                 then [(SubpagePhase,
                        JStr <$> subpage_list P siteUrl (visited_sitemap P siteUrl))]
                 else []
             | _ => []
             end =
             if b2 then [(SubpagePhase,
                          JStr <$> subpage_list P siteUrl (visited_sitemap P siteUrl))]
             else []).
  { destruct (fst _); [|now exists false..].
    destruct (0 <? length (subpage_list P siteUrl (visited_sitemap P siteUrl)));
      [now exists true | now exists false]. }
  destruct Hb2 as [b2 ->].
  apply phases_apart_three.
  - intros u Hu ->. apply elem_of_unvisited in Hu as [_ Hu].
    apply Hu. unfold visited_seed. set_solver.
  - intros u Hu. apply elem_of_unvisited_str in Hu.
    unfold visited_sitemap in Hu. rewrite add_result_spec in Hu. split.
    + intros ->. apply Hu. right. unfold visited_seed. set_solver.
    + intros Hin. apply Hu. now left.
Qed.

Lemma run_history_increasing (P : Platform) (siteUrl : string) :
  increasing_from ∅ (run_history P siteUrl).
Proof.
  unfold run_history. split; [set_solver|].
  apply increasing_from_app; [apply add_history_increasing|].
  rewrite add_history_last. fold (visited_sitemap P siteUrl).
  destruct (fst _); [apply add_history_increasing | exact I..].
Qed.

Lemma add_result_in_history (urls : list JsVal) (V : gset JsVal) :
  urls <> [] -> add_result urls V ∈ add_history urls V.
Proof.
  revert V. induction urls as [|u urls IH]; intros V Hne; [contradiction|].
  cbn [add_history add_result]. destruct urls as [|x urls].
  - apply list_elem_of_here.
  - apply list_elem_of_further, IH. discriminate.
Qed.

(** Every URL handed to a scanner is in [visitedUrls] at some point of
    the run (and then stays there, the history being increasing). *)
Lemma run_dispatches_marked (P : Platform) (siteUrl : string) (p : Phase)
    (l : list JsVal) (u : JsVal) :
  (p, l) ∈ run_dispatches P siteUrl -> u ∈ l ->
  exists V, V ∈ run_history P siteUrl /\ u ∈ V.
Proof.
  unfold run_dispatches, run_history. intros Hd Hu.
  apply elem_of_cons in Hd as [Hd | Hd]; [|apply elem_of_app in Hd as [Hd | Hd]].
  - injection Hd as -> ->. apply list_elem_of_singleton in Hu as ->.
    exists (visited_seed siteUrl). split; [apply list_elem_of_here|].
    unfold visited_seed. set_solver.
  - destruct (sitemap_list P siteUrl (visited_seed siteUrl)) as [|x uns] eqn:E;
      cbn [length Nat.ltb Nat.leb] in Hd; [now apply elem_of_nil in Hd|].
    apply list_elem_of_singleton in Hd. injection Hd as -> ->.
    exists (add_result (x :: uns) (visited_seed siteUrl)). split.
    + apply list_elem_of_further, elem_of_app. left.
      apply add_result_in_history. discriminate.
    + apply add_result_spec. now left.
  - destruct (fst _); try (now apply elem_of_nil in Hd).
    destruct (subpage_list P siteUrl (visited_sitemap P siteUrl)) as [|x sub] eqn:E;
      cbn [length Nat.ltb Nat.leb] in Hd; [now apply elem_of_nil in Hd|].
    apply list_elem_of_singleton in Hd. injection Hd as -> ->.
    exists (add_result (JStr <$> x :: sub) (visited_sitemap P siteUrl)). split.
    + apply list_elem_of_further, elem_of_app. right.
      apply add_result_in_history. discriminate.
    + apply add_result_spec. now left.
Qed.

(** C5: during a run of [findAllergyPDFs], each value of [visitedUrls]
    includes the one before (the set only grows); no URL is handed to the
    scanners of two different phases, the sitemap list being filtered
    against the set that holds the seed and the sub-page list against the
    set that also holds the sitemap list; and every URL handed to a
    scanner is marked visited. *)
Theorem C5_visited_grows_phases_apart (P : Platform) (siteUrl : string) (st : State) :
  exists hits st' history dispatches,
    findAllergyPDFs P siteUrl st = (Return hits, st') /\
    visitedHistory st' = visitedHistory st ++ history /\
    dispatched st' = dispatched st ++ dispatches /\
    increasing_from ∅ history /\
    phases_apart dispatches /\
    (forall p l u, (p, l) ∈ dispatches -> u ∈ l -> exists V, V ∈ history /\ u ∈ V).
Proof.
  exists (run_hits P siteUrl), (tell (run_delta P siteUrl) st),
         (run_history P siteUrl), (run_dispatches P siteUrl).
  split; [apply findAllergyPDFs_run|].
  split; [cbn [tell visitedHistory]; now rewrite run_delta_visited|].
  split; [cbn [tell dispatched]; now rewrite run_delta_dispatched|].
  split; [apply run_history_increasing|].
  split; [apply run_dispatches_apart | apply run_dispatches_marked].
Qed.

(** On the site: the seed, then the two sitemap entries; the sub-page
    phase is never reached, the sitemap phase having thrown. *)
Lemma C5_site_run :
  exists hits st' history dispatches,
    findAllergyPDFs (Site.platform (Some "")) Site.seed initial = (Return hits, st') /\
    visitedHistory st' = history /\
    dispatched st' = dispatches /\
    increasing_from ∅ history /\
    phases_apart dispatches /\
    map fst dispatches = [SeedPhase; SitemapPhase].
Proof.
  destruct (C5_visited_grows_phases_apart (Site.platform (Some "")) Site.seed initial)
    as (hits & st' & history & dispatches & Hrun & Hhist & Hdisp & Hinc & Hapart & _).
  exists hits, st', history, dispatches.
  split; [exact Hrun|]. split; [exact Hhist|]. split; [exact Hdisp|].
  split; [exact Hinc|]. split; [exact Hapart|].
  assert (Hst : st' = snd (findAllergyPDFs (Site.platform (Some "")) Site.seed initial))
    by now rewrite Hrun.
  cbn [app dispatched initial] in Hdisp. rewrite <- Hdisp, Hst.
  vm_compute. reflexivity.
Defined.

(** ** Exceptions during a run *)

(** C8, as stated, fails.  On the site, with a robots.txt that allows
    everything, the scan of the sitemap's first URL gathers a hit, the
    second entry of the sitemap makes [searchSitemapUrlsForPdfs] throw,
    and the list that [findAllergyPDFs] returns does not hold the hit. *)
Lemma C8_gathered_hit_lost :
  let P := Site.platform (Some "") in
  let lost := {| url := Site.pdf2; text := "Ingredients"; source := Site.allergenPage |} in
  fst (searchSitemapUrlsForPdfs P [JStr Site.allergenPage; JObj 0]
         (Some Site.allowAll) initial)
  = Throw "sitemapUrl.includes is not a function" /\
  In lost (gathered (snd (findAllergyPDFs P Site.seed initial))) /\
  fst (findAllergyPDFs P Site.seed initial) = Return [Site.expected] /\
  ~ In lost [Site.expected].
Proof.
  cbv zeta. split; [vm_compute; reflexivity|].
  split; [vm_compute; tauto|].
  split; [vm_compute; reflexivity|].
  intros [H | []]. discriminate H.
Qed.

(** C8 (amended): [findAllergyPDFs] always returns a list and never
    throws.  When nothing throws, the list is the hits of the seed page,
    then of the sitemap phase, then of the sub-page phase.  When the
    sitemap phase throws (the only call of the [try] block that can), the
    list is the one [findAllergyPDFs] had accumulated by then, the hits of
    the seed page; what the sitemap phase had gathered is not in it. *)
Theorem C8_partial_results (P : Platform) (siteUrl : string) (st : State) :
  exists hits st',
    findAllergyPDFs P siteUrl st = (Return hits, st') /\
    let robots := robots_rules P siteUrl in
    let seedHits := page_hits P siteUrl robots in
    forall st1,
      match fst (searchSitemapUrlsForPdfs P
                   (unvisited (visited_seed siteUrl) (sitemap_urls P siteUrl))
                   robots st1) with
      | Return sitemapHits =>
          hits = (seedHits ++ sitemapHits) ++
                 flat_map (fun u => page_hits P u robots)
                          (unvisited_str (visited_sitemap P siteUrl)
                                         (subpage_urls P siteUrl robots))
      | _ => hits = seedHits
      end.
Proof.
  exists (run_hits P siteUrl), (tell (run_delta P siteUrl) st).
  split; [apply findAllergyPDFs_run|].
  intros robots seedHits st1. subst robots seedHits. unfold searchSitemapUrlsForPdfs.
  rewrite sitemap_loop_run. cbn [fst]. unfold run_hits, sitemap_list, subpage_list.
  now destruct (fst _).
Qed.

(** ** The model at work on the site *)

Example trim_ex : JsString.trim "  アレルギー情報 " = "アレルギー情報".
Proof. vm_compute. reflexivity. Qed.

Example pathname_ex :
  SpecWords.URL_pathname "https://example.test/docs/allergy.pdf?v=2" = "/docs/allergy.pdf".
Proof. vm_compute. reflexivity. Qed.

Example site_seed_allowAll :
  fst (searchPDFsInPage (Site.platform None) Site.seed (Some Site.allowAll) initial)
  = Return [Site.expected].
Proof. vm_compute. reflexivity. Qed.

Example site_seed_null :
  fst (searchPDFsInPage (Site.platform None) Site.seed None initial) = Return [].
Proof. vm_compute. reflexivity. Qed.

Example site_run :
  fst (findAllergyPDFs (Site.platform (Some "")) Site.seed initial) = Return [Site.expected].
Proof. vm_compute. reflexivity. Qed.

Example site_run_gathered :
  gathered (snd (findAllergyPDFs (Site.platform (Some "")) Site.seed initial))
  = [Site.expected; {| url := Site.pdf2; text := "Ingredients"; source := Site.allergenPage |}].
Proof. vm_compute. reflexivity. Qed.

Example site_run_trace :
  trace (snd (findAllergyPDFs (Site.platform (Some "")) Site.seed initial))
  = [ EvFetch RobotsTxt Site.robotsUrl; EvFetch Page Site.seed;
      EvFetch Sitemap Site.sitemapUrl; EvLaunch; EvGoto Site.allergenPage; EvClose;
      EvFetch Page Site.allergenPage ].
Proof. vm_compute. reflexivity. Qed.

(** When the request for robots.txt fails the policy is null and the whole
    run finds nothing. *)
Example site_run_without_robots :
  fst (findAllergyPDFs (Site.platform None) Site.seed initial) = Return [].
Proof. vm_compute. reflexivity. Qed.

(** * Further properties of the crawler *)

(** ** What a scan returns *)

Section Hits.

Context (P : Platform).

(** The hit a link gives rise to, if it gives rise to one: the link
    resolves, it is classified as an allergen PDF, and a parsed policy
    allows the target (lines 81-103 and 160-175). *)
Definition link_hit (keywords : list string) (pageUrl : string) (robots : option Robots)
    (href linkText : string) : option PdfHit :=
  match URL_href P href pageUrl with
  | None => None
  | Some fullUrl =>
      if isPDF fullUrl && isAllergyKeyword keywords fullUrl linkText
         && (truthy_robots robots && isAllowedByRobots robots fullUrl)
      then Some {| url := fullUrl;
                   text := if truthy linkText then linkText else "PDF";
                   source := pageUrl |}
      else None
  end.

(** The hit of an anchor of the static page. *)
Definition anchor_hit (pageUrl : string) (robots : option Robots) (element : Anchor)
    : option PdfHit :=
  match attr_href element with
  | Some h =>
      if truthy h
      then link_hit ALLERGY_KEYWORDS pageUrl robots h (trim (textContent element))
      else None
  | None => None
  end.

(** The hit of a link of the rendered page. *)
Definition rendered_hit (pageUrl : string) (robots : option Robots) (link : Link)
    : option PdfHit :=
  link_hit ALLERGY_KEYWORDS_JS pageUrl robots (href link) (link_text link).

Lemma push_link_hit (keywords : list string) (pageUrl : string) (robots : option Robots)
    (pagePdfLinks : list PdfHit) (h linkText : string) :
  push_link P keywords pageUrl robots pagePdfLinks h linkText =
  pagePdfLinks ++ option_list (link_hit keywords pageUrl robots h linkText).
Proof.
  unfold push_link, link_hit. destruct (URL_href P h pageUrl) as [fullUrl|];
    [|now rewrite app_nil_r].
  destruct (isPDF fullUrl && isAllergyKeyword keywords fullUrl linkText);
    [|now rewrite app_nil_r].
  cbn [andb].
  destruct (truthy_robots robots && isAllowedByRobots robots fullUrl);
    [reflexivity | now rewrite app_nil_r].
Qed.

(** A loop that pushes at most one element per item builds the list of
    the elements pushed, in the order of the items. *)
Lemma fold_push_omap {A B} (f : list B -> A -> list B) (g : A -> option B)
    (items : list A) (acc : list B) :
  (forall acc x, f acc x = acc ++ option_list (g x)) ->
  fold_left f items acc = acc ++ omap g items.
Proof.
  intros Hf. revert acc. induction items as [|x items IH]; intros acc;
    [now rewrite app_nil_r|].
  cbn [fold_left omap list_omap]. rewrite IH, Hf.
  destruct (g x); cbn [option_list]; [now rewrite <- app_assoc | now rewrite app_nil_r].
Qed.

Lemma each_a_hit (pageUrl : string) (robots : option Robots)
    (pagePdfLinks : list PdfHit) (element : Anchor) :
  each_a P pageUrl robots pagePdfLinks element =
  pagePdfLinks ++ option_list (anchor_hit pageUrl robots element).
Proof.
  unfold each_a, anchor_hit.
  destruct (attr_href element) as [h|]; [|now rewrite app_nil_r].
  destruct (truthy h); cbn [negb]; [apply push_link_hit | now rewrite app_nil_r].
Qed.

Lemma fold_each_a (pageUrl : string) (robots : option Robots) (anchors : list Anchor)
    (pagePdfLinks : list PdfHit) :
  fold_left (each_a P pageUrl robots) anchors pagePdfLinks =
  pagePdfLinks ++ omap (anchor_hit pageUrl robots) anchors.
Proof. apply fold_push_omap, each_a_hit. Qed.

Lemma fold_each_link (pageUrl : string) (robots : option Robots) (links : list Link)
    (pagePdfLinks : list PdfHit) :
  fold_left (each_link P pageUrl robots) links pagePdfLinks =
  pagePdfLinks ++ omap (rendered_hit pageUrl robots) links.
Proof. apply fold_push_omap. intros acc l. apply push_link_hit. Qed.

End Hits.

(** What holds of every hit found on [pageUrl] under [robots]: the URL as
    a whole ends in [.pdf], a keyword occurs in the URL or in the text,
    the text is not empty, the source is the page, and the policy is a
    parsed one that allows the URL. *)
Definition good_hit (robots : option Robots) (pageUrl : string) (h : PdfHit) : Prop :=
  isPDF (url h) = true /\
  isAllergyKeyword ALLERGY_KEYWORDS (url h) (text h) = true /\
  text h <> "" /\
  source h = pageUrl /\
  exists r, robots = Some r /\ isAllowed r (url h) "CustomBot" = Some true.

(** No keyword matches the empty text. *)
Lemma keyword_not_in_empty (k : string) :
  In k ALLERGY_KEYWORDS -> regexp_test_i k "" = false.
Proof.
  intros Hk.
  assert (H : forallb (fun k => negb (regexp_test_i k "")) ALLERGY_KEYWORDS = true)
    by (vm_compute; reflexivity).
  rewrite forallb_forall in H. now apply negb_true_iff, H.
Qed.

Lemma isAllergyKeyword_text_or_PDF (keywords : list string) (fullUrl linkText : string) :
  (forall k, In k keywords -> In k ALLERGY_KEYWORDS) ->
  isAllergyKeyword keywords fullUrl linkText = true ->
  isAllergyKeyword ALLERGY_KEYWORDS fullUrl (if truthy linkText then linkText else "PDF")
  = true.
Proof.
  intros Hsub H. unfold isAllergyKeyword in *. rewrite existsb_exists in *.
  destruct H as (k & Hk & Hmatch). exists k. split; [now apply Hsub|].
  destruct linkText as [|c rest]; cbn [truthy]; [|exact Hmatch].
  apply orb_true_iff in Hmatch as [Hu | He]; [now rewrite Hu|].
  rewrite keyword_not_in_empty in He by now apply Hsub. discriminate.
Qed.

Lemma link_hit_good (P : Platform) (keywords : list string) (pageUrl : string)
    (robots : option Robots) (h linkText : string) (hit : PdfHit) :
  (forall k, In k keywords -> In k ALLERGY_KEYWORDS) ->
  link_hit P keywords pageUrl robots h linkText = Some hit ->
  good_hit robots pageUrl hit.
Proof.
  intros Hsub. unfold link_hit.
  destruct (URL_href P h pageUrl) as [fullUrl|]; [|discriminate].
  destruct (isPDF fullUrl) eqn:Hpdf; [|discriminate].
  destruct (isAllergyKeyword keywords fullUrl linkText) eqn:Hkw; [|discriminate].
  destruct robots as [r|]; [|discriminate].
  cbn [andb truthy_robots isAllowedByRobots].
  destruct (isAllowed r fullUrl "CustomBot") as [[|]|] eqn:Hallowed; try discriminate.
  intros [= <-]. unfold good_hit. cbn [url text source].
  split; [exact Hpdf|].
  split; [now apply (isAllergyKeyword_text_or_PDF keywords)|].
  split; [now destruct linkText|].
  split; [reflexivity|]. now exists r.
Qed.

Lemma omap_Forall {A B} (f : A -> option B) (Q : B -> Prop) (l : list A) :
  (forall x y, f x = Some y -> Q y) -> Forall Q (omap f l).
Proof.
  intros H. induction l as [|x l IH]; [constructor|].
  cbn [omap list_omap]. destruct (f x) eqn:E; [constructor; eauto | exact IH].
Qed.

Lemma page_hits_omap (P : Platform) (pageUrl : string) (robots : option Robots) :
  page_hits P pageUrl robots =
  if truthy_robots robots && negb (isAllowedByRobots robots pageUrl) then []
  else match http P pageUrl with
       | Some response => omap (anchor_hit P pageUrl robots) (cheerio_a P (body response))
       | None => []
       end.
Proof.
  unfold page_hits. destruct (_ && _); [reflexivity|].
  destruct (http P pageUrl); [|reflexivity]. now rewrite fold_each_a.
Qed.

Lemma page_hits_good (P : Platform) (pageUrl : string) (robots : option Robots) :
  Forall (good_hit robots pageUrl) (page_hits P pageUrl robots).
Proof.
  rewrite page_hits_omap. destruct (_ && _); [constructor|].
  destruct (http P pageUrl); [|constructor].
  apply omap_Forall. intros el hit. unfold anchor_hit.
  destruct (attr_href el) as [h|]; [|discriminate].
  destruct (truthy h); [|discriminate].
  now apply link_hit_good.
Qed.

Lemma js_hits_good (P : Platform) (pageUrl : string) (robots : option Robots) :
  Forall (good_hit robots pageUrl) (js_hits P pageUrl robots).
Proof.
  unfold js_hits. destruct (_ && _); [constructor|].
  destruct (puppeteer P pageUrl) as [|close|close|links [|err] close_again];
    try apply page_hits_good.
  rewrite fold_each_link. apply omap_Forall. intros l hit. unfold rendered_hit.
  apply link_hit_good. intros k. apply ALLERGY_KEYWORDS_JS_same.
Qed.

(** X1: the static scanner always returns.  The rendered scanner returns
    or throws: it throws exactly when the page is let through and the
    call of [browser.close()] in its handler rejects, and what it throws
    is the error of that call.  Every hit that either scanner returns has
    a URL that as a whole ends in [.pdf], a keyword in its URL or text, a
    non-empty text ([PDF] stands in for an empty link text), the scanned
    page as its source, and a target that a parsed policy allows. *)
Theorem scan_hits_are_allowed_pdfs (P : Platform) (pageUrl : string)
    (robots : option Robots) (st : State) :
  (exists hits st',
      searchPDFsInPage P pageUrl robots st = (Return hits, st') /\
      Forall (good_hit robots pageUrl) hits) /\
  (forall err,
      fst (searchPDFsInPageWithJS P pageUrl robots st) = Throw err <->
      truthy_robots robots && negb (isAllowedByRobots robots pageUrl) = false /\
      handler_error (puppeteer P pageUrl) = Some err) /\
  match fst (searchPDFsInPageWithJS P pageUrl robots st) with
  | Return hits => Forall (good_hit robots pageUrl) hits
  | Throw _ => True
  | Diverge => False
  end.
Proof.
  split; [eexists _, _; split; [apply searchPDFsInPage_run | apply page_hits_good]|].
  rewrite searchPDFsInPageWithJS_run. cbn [fst].
  pose proof (js_hits_good P pageUrl robots) as Hgood.
  unfold js_outcome, js_error.
  destruct (truthy_robots robots && negb (isAllowedByRobots robots pageUrl)).
  - split; [|exact Hgood]. intros err. split; [discriminate | now intros [? _]].
  - destruct (handler_error (puppeteer P pageUrl)) as [e|].
    + split; [|exact I]. intros err. split.
      * now intros [= <-].
      * now intros [_ [= <-]].
    + split; [|exact Hgood]. intros err. split; [discriminate | now intros [_ ?]].
Qed.

(** X2: the scan of a page that the policy lets through and that is
    fetched returns, in document order, the hit of each anchor that has
    one: hits are neither reordered nor repeated.  The status of the
    response is not consulted: the body of an error page is scanned like
    any other. *)
Theorem scan_keeps_document_order (P : Platform) (pageUrl : string)
    (robots : option Robots) (response : Response) (st : State) :
  isAllowedByRobots robots pageUrl = true ->
  http P pageUrl = Some response ->
  exists st',
    searchPDFsInPage P pageUrl robots st =
    (Return (omap (anchor_hit P pageUrl robots) (cheerio_a P (body response))), st') /\
    trace st' = trace st ++ [EvFetch Page pageUrl].
Proof.
  intros Hallowed Hhttp. rewrite searchPDFsInPage_run, page_hits_omap.
  unfold page_events. rewrite Hallowed, andb_false_r, Hhttp.
  eexists. split; reflexivity.
Qed.

Lemma scan_keeps_document_order_seed :
  exists st',
    searchPDFsInPage (Site.platform None) Site.seed (Some Site.allowAll) initial =
    (Return [Site.expected], st') /\
    trace st' = [EvFetch Page Site.seed].
Proof.
  destruct (scan_keeps_document_order (Site.platform None) Site.seed
              (Some Site.allowAll) {| ok := true; body := Site.seedHtml |} initial
              eq_refl eq_refl) as (st' & Hrun & Htrace).
  exists st'. split; [exact Hrun | exact Htrace].
Defined.

(** The links the browser reports when the rendered page has exactly the
    anchors of the static page: those with a non-empty [href], with their
    trimmed text (lines 137-140). *)
Definition links_of_anchors (anchors : list Anchor) : list Link :=
  omap (fun element =>
          match attr_href element with
          | Some h => if truthy h
                      then Some {| href := h; link_text := trim (textContent element) |}
                      else None
          | None => None
          end) anchors.

Lemma rendered_hit_static (P : Platform) (pageUrl : string) (robots : option Robots)
    (anchors : list Anchor) :
  omap (rendered_hit P pageUrl robots) (links_of_anchors anchors) =
  omap (anchor_hit P pageUrl robots) anchors.
Proof.
  unfold links_of_anchors. induction anchors as [|el anchors IH]; [reflexivity|].
  cbn [omap list_omap]. unfold anchor_hit at 1.
  destruct (attr_href el) as [h|]; [|exact IH].
  destruct (truthy h); [|exact IH].
  cbn [omap list_omap]. unfold rendered_hit at 1, link_hit. cbn [href link_text].
  rewrite IH. destruct (URL_href P h pageUrl); [|reflexivity].
  now rewrite isAllergyKeyword_JS.
Qed.

(** The site, with a browser that renders every page to the anchors of
    its static HTML and closes at once. *)
Definition rendering_site : Platform :=
  {| URL_href := Site.resolve;
     http := Site.serve None;
     robotsParser := fun _ _ => Site.allowAll;
     cheerio_a := Site.anchors;
     parseStringPromise := Site.parse;
     puppeteer := fun u =>
       match Site.serve None u with
       | Some response =>
           Rendered (links_of_anchors (Site.anchors (body response)))
                    CloseResolves CloseResolves
       | None => PageFails CloseResolves
       end |}.

(** X3: when the rendered page shows exactly the anchors of the static
    page, the rendered scanner returns the hits the static scanner
    returns (their keyword arrays differ only by a repeated entry),
    unless both calls of [browser.close()] reject, and then it throws
    the error of the second.  When the first call resolves, the rendered
    scan launches one browser, sends it to the page, closes it and
    issues no request by [fetch]; when only the second resolves, the
    hits are those of the static scan the handler falls back to. *)
Theorem scanners_agree (P : Platform) (pageUrl : string) (robots : option Robots)
    (response : Response) (close close_again : CloseOutcome) (st : State) :
  isAllowedByRobots robots pageUrl = true ->
  http P pageUrl = Some response ->
  puppeteer P pageUrl =
    Rendered (links_of_anchors (cheerio_a P (body response))) close close_again ->
  exists hits st2,
    searchPDFsInPage P pageUrl robots st = (Return hits, st2) /\
    trace st2 = trace st ++ [EvFetch Page pageUrl] /\
    match close, close_again with
    | CloseResolves, _ =>
        exists st1,
          searchPDFsInPageWithJS P pageUrl robots st = (Return hits, st1) /\
          trace st1 = trace st ++ [EvLaunch; EvGoto pageUrl; EvClose]
    | CloseRejects _, CloseResolves =>
        exists st1,
          searchPDFsInPageWithJS P pageUrl robots st = (Return hits, st1) /\
          trace st1 = trace st ++ [EvLaunch; EvGoto pageUrl; EvCloseRejected; EvClose;
                                   EvFetch Page pageUrl]
    | CloseRejects _, CloseRejects err =>
        fst (searchPDFsInPageWithJS P pageUrl robots st) = Throw err
    end.
Proof.
  intros Hallowed Hhttp Hrender.
  rewrite searchPDFsInPageWithJS_run, searchPDFsInPage_run, page_hits_omap.
  unfold js_outcome, js_error, js_hits, js_events, page_events.
  rewrite Hallowed, andb_false_r, Hhttp, Hrender. cbn [handler_error].
  eexists _, _. split; [reflexivity|]. split; [reflexivity|].
  destruct close as [|e1]; [|destruct close_again as [|e2]];
    cbn [close_error handler_events].
  - rewrite fold_each_link, rendered_hit_static. eexists. split; reflexivity.
  - rewrite page_hits_omap, Hallowed, andb_false_r, Hhttp. eexists. split; reflexivity.
  - reflexivity.
Qed.

Lemma scanners_agree_allergen_page :
  exists hits st1 st2,
    searchPDFsInPageWithJS rendering_site Site.allergenPage (Some Site.allowAll) initial
    = (Return hits, st1) /\
    searchPDFsInPage rendering_site Site.allergenPage (Some Site.allowAll) initial
    = (Return hits, st2) /\
    trace st1 = [EvLaunch; EvGoto Site.allergenPage; EvClose] /\
    trace st2 = [EvFetch Page Site.allergenPage].
Proof.
  destruct (scanners_agree rendering_site Site.allergenPage (Some Site.allowAll)
              {| ok := true; body := Site.allergenHtml |} CloseResolves CloseResolves
              initial eq_refl eq_refl eq_refl)
    as (hits & st2 & Hstatic & Htrace2 & st1 & Hjs & Htrace1).
  exists hits, st1, st2. repeat split; assumption.
Defined.

(** ** The sub-page discoverer *)

Section Subpages.

Context (P : Platform) (baseUrl : string).

(** The URL an anchor contributes to the sub-page list: its non-empty
    [href], resolved, when the result starts with the base URL. *)
Definition subpage_of (element : Anchor) : option string :=
  match attr_href element with
  | Some h =>
      if truthy h then
        match URL_href P h baseUrl with
        | Some fullUrl => if startsWith baseUrl fullUrl then Some fullUrl else None
        | None => None
        end
      else None
  | None => None
  end.

Lemma each_a_subpage_spec (subpageUrls : list string) (element : Anchor) :
  each_a_subpage P baseUrl subpageUrls element =
  match subpage_of element with
  | Some u => Set_add u subpageUrls
  | None => subpageUrls
  end.
Proof.
  unfold each_a_subpage, subpage_of.
  destruct (attr_href element) as [h|]; [|reflexivity].
  destruct (truthy h); cbn [negb]; [|reflexivity].
  destruct (URL_href P h baseUrl) as [fullUrl|]; [|reflexivity].
  now destruct (startsWith baseUrl fullUrl).
Qed.

Lemma fold_each_a_subpage (anchors : list Anchor) (subpageUrls : list string) :
  NoDup subpageUrls ->
  NoDup (fold_left (each_a_subpage P baseUrl) anchors subpageUrls) /\
  forall u, u ∈ fold_left (each_a_subpage P baseUrl) anchors subpageUrls <->
            u ∈ subpageUrls \/ exists element, element ∈ anchors /\ subpage_of element = Some u.
Proof.
  revert subpageUrls. induction anchors as [|el anchors IH]; intros acc Hnd.
  - split; [exact Hnd|]. intros u. cbn [fold_left]. split; [now left|].
    intros [H | (el & Hel & _)]; [exact H | now apply elem_of_nil in Hel].
  - cbn [fold_left]. rewrite each_a_subpage_spec.
    destruct (subpage_of el) as [v|] eqn:Hv.
    + unfold Set_add. case_bool_decide as Hin.
      * destruct (IH acc Hnd) as [Hnd' Hmem]. split; [exact Hnd'|].
        intros u. rewrite Hmem. split.
        -- intros [H | (x & Hx & Hxu)]; [now left|].
           right. exists x. split; [now apply list_elem_of_further | exact Hxu].
        -- intros [H | (x & Hx & Hxu)]; [now left|].
           apply elem_of_cons in Hx as [-> | Hx].
           ++ left. rewrite Hv in Hxu. now injection Hxu as <-.
           ++ right. now exists x.
      * assert (Hnd2 : NoDup (acc ++ [v])).
        { apply NoDup_app. split; [exact Hnd|]. split; [|apply NoDup_singleton].
          intros x Hx Hxv. apply list_elem_of_singleton in Hxv as ->. contradiction. }
        destruct (IH _ Hnd2) as [Hnd' Hmem]. split; [exact Hnd'|].
        intros u. rewrite Hmem, elem_of_app, list_elem_of_singleton. split.
        -- intros [[H | ->] | (x & Hx & Hxu)].
           ++ now left.
           ++ right. exists el. split; [apply list_elem_of_here | exact Hv].
           ++ right. exists x. split; [now apply list_elem_of_further | exact Hxu].
        -- intros [H | (x & Hx & Hxu)]; [now left; left|].
           apply elem_of_cons in Hx as [-> | Hx].
           ++ left. right. rewrite Hv in Hxu. now injection Hxu as <-.
           ++ right. now exists x.
    + destruct (IH acc Hnd) as [Hnd' Hmem]. split; [exact Hnd'|].
      intros u. rewrite Hmem. split.
      * intros [H | (x & Hx & Hxu)]; [now left|].
        right. exists x. split; [now apply list_elem_of_further | exact Hxu].
      * intros [H | (x & Hx & Hxu)]; [now left|].
        apply elem_of_cons in Hx as [-> | Hx]; [congruence|].
        right. now exists x.
Qed.

End Subpages.

(** X4: the sub-page list of a base page that the policy lets through and
    that is fetched holds no URL twice, and holds exactly the URLs that
    some anchor's non-empty [href] resolves to and that start with the
    base URL as a string. *)
Theorem subpages_are_distinct_prefixed (P : Platform) (baseUrl : string)
    (robots : option Robots) (response : Response) (st : State) :
  isAllowedByRobots robots baseUrl = true ->
  http P baseUrl = Some response ->
  exists urls st',
    getSubpageUrls P baseUrl robots st = (Return urls, st') /\
    NoDup urls /\
    forall u, u ∈ urls <->
      startsWith baseUrl u = true /\
      exists element h,
        element ∈ cheerio_a P (body response) /\
        attr_href element = Some h /\ h <> "" /\
        URL_href P h baseUrl = Some u.
Proof.
  intros Hallowed Hhttp. rewrite getSubpageUrls_run. eexists _, _.
  split; [reflexivity|]. unfold subpage_urls. rewrite Hallowed, andb_false_r, Hhttp.
  destruct (fold_each_a_subpage P baseUrl (cheerio_a P (body response)) []
              (NoDup_nil_2 (A:=string))) as [Hnd Hmem].
  split; [exact Hnd|]. intros u. rewrite Hmem. split.
  - intros [H | (el & Hel & Hsub)]; [now apply elem_of_nil in H|].
    unfold subpage_of in Hsub. destruct (attr_href el) as [h|] eqn:Hh; [|discriminate].
    destruct (truthy h) eqn:Ht; [|discriminate].
    destruct (URL_href P h baseUrl) as [fullUrl|] eqn:Hr; [|discriminate].
    destruct (startsWith baseUrl fullUrl) eqn:Hs; [|discriminate].
    injection Hsub as <-. split; [exact Hs|].
    exists el, h. repeat split; try assumption. intros ->. discriminate.
  - intros [Hs (el & h & Hel & Hh & Hne & Hr)]. right. exists el. split; [exact Hel|].
    unfold subpage_of. rewrite Hh. destruct h; [contradiction|].
    cbn [truthy]. now rewrite Hr, Hs.
Qed.

Lemma subpages_of_seed :
  exists urls st',
    getSubpageUrls (Site.platform None) Site.seed (Some Site.allowAll) initial
    = (Return urls, st') /\
    NoDup urls /\
    Site.pdf ∈ urls.
Proof.
  destruct (subpages_are_distinct_prefixed (Site.platform None) Site.seed
              (Some Site.allowAll) {| ok := true; body := Site.seedHtml |} initial
              eq_refl eq_refl) as (urls & st' & Hrun & Hnd & Hmem).
  exists urls, st'. split; [exact Hrun|]. split; [exact Hnd|].
  apply Hmem. split; [reflexivity|].
  exists {| attr_href := Some "/docs/allergy.pdf"; textContent := "アレルギー情報" |},
         "/docs/allergy.pdf".
  repeat split; [apply list_elem_of_here | discriminate].
Defined.

(** ** A run and the robots policy *)

(** A request for a page, by [fetch] or by the browser, is one the policy
    allows; the requests for robots.txt and for the sitemap are not
    checked against the policy. *)
Definition allowed_event (robots : option Robots) (ev : Event) : Prop :=
  match ev with
  | EvFetch Page u | EvGoto u => isAllowedByRobots robots u = true
  | _ => True
  end.

Definition polite (robots : option Robots) (tr : list Event) : Prop :=
  Forall (allowed_event robots) tr.

Lemma guard_passed (robots : option Robots) (u : string) :
  truthy_robots robots && negb (isAllowedByRobots robots u) = false ->
  isAllowedByRobots robots u = true.
Proof.
  destruct robots as [r|]; [|reflexivity]. cbn [truthy_robots andb].
  now intros H%negb_false_iff.
Qed.

Lemma polite_page_events (robots : option Robots) (u : string) :
  polite robots (page_events u robots).
Proof.
  unfold page_events. destruct (_ && _) eqn:G; [constructor|].
  constructor; [now apply guard_passed | constructor].
Qed.

Lemma polite_js_events (P : Platform) (robots : option Robots) (u : string) :
  polite robots (js_events P u robots).
Proof.
  unfold js_events. pose proof (polite_page_events robots u) as Hp.
  unfold page_events in *. destruct (_ && _) eqn:G; [constructor|].
  pose proof (guard_passed robots u G : allowed_event robots (EvGoto u)) as Hgoto.
  assert (Hhandler : forall close,
             Forall (allowed_event robots) (handler_events close [EvFetch Page u])).
  { intros [|err]; cbn [handler_events]; repeat constructor. now apply guard_passed. }
  destruct (puppeteer P u) as [|close|close|links [|err] close_again].
  - exact Hp.
  - constructor; [exact I | apply Hhandler].
  - constructor; [exact I|]. constructor; [exact Hgoto | apply Hhandler].
  - constructor; [exact I|]. constructor; [exact Hgoto|]. repeat constructor.
  - constructor; [exact I|]. constructor; [exact Hgoto|].
    constructor; [exact I | apply Hhandler].
Qed.

Lemma polite_sitemap_loop (P : Platform) (siteUrl : string) (sitemapUrls : list JsVal)
    (pdfLinks : list PdfHit) :
  polite (robots_rules P siteUrl) (d_trace (snd (sitemap_loop P siteUrl sitemapUrls pdfLinks))).
Proof.
  revert pdfLinks. induction sitemapUrls as [|v urls IH]; intros pdfLinks; [constructor|].
  destruct v as [u| |]; cbn [sitemap_loop]; try constructor.
  assert (Hscan : polite (robots_rules P siteUrl) (sitemap_scan_events P siteUrl u)).
  { unfold sitemap_scan_events.
    destruct (_ || _); [apply polite_js_events | apply polite_page_events]. }
  destruct (sitemap_scan_error P siteUrl u); [exact Hscan|].
  specialize (IH (pdfLinks ++ sitemap_hits P siteUrl u)).
  destruct (sitemap_loop P siteUrl urls _) as [out d]. cbn [snd dapp d_trace d_events d_push] in *.
  apply Forall_app. split; [exact Hscan | exact IH].
Qed.

Lemma polite_batches (P : Platform) (robots : option Robots) (batches : list (list string)) :
  polite robots (d_trace (batches_delta P robots batches)).
Proof.
  induction batches as [|b batches IH]; [constructor|].
  cbn [batches_delta dapp d_trace batch_delta].
  apply Forall_app. split; [|exact IH].
  constructor; [exact I|]. apply Forall_app. split.
  - clear. induction b; constructor; [exact I | assumption].
  - clear. induction b as [|u b IHb]; [constructor|].
    cbn [flat_map]. apply Forall_app. split; [|exact IHb].
    unfold worker_events. apply Forall_app. split; [apply polite_page_events|].
    constructor; [exact I | constructor].
Qed.

Lemma polite_run (P : Platform) (siteUrl : string) :
  polite (robots_rules P siteUrl) (d_trace (run_delta P siteUrl)).
Proof.
  unfold run_delta.
  pose proof (polite_sitemap_loop P siteUrl
                (sitemap_list P siteUrl (visited_seed siteUrl)) []) as Hloop.
  destruct (sitemap_loop P siteUrl _ []) as [out d]. cbn [snd] in Hloop.
  unfold seed_delta, sitemap_pre, subpage_delta.
  pose proof (polite_page_events (robots_rules P siteUrl) siteUrl) as Hpage.
  pose proof (polite_batches P (robots_rules P siteUrl)
                (chunks 2 (subpage_list P siteUrl (visited_sitemap P siteUrl)))) as Hb.
  assert (Hrobots : polite (robots_rules P siteUrl) (robots_events P siteUrl)).
  { unfold robots_events. destruct (URL_href P _ _); repeat constructor. }
  assert (Hsitemap : polite (robots_rules P siteUrl) (sitemap_events P siteUrl)).
  { unfold sitemap_events. destruct (URL_href P _ _); repeat constructor. }
  unfold polite in *.
  destruct out;
    destruct (0 <? length (sitemap_list P siteUrl (visited_seed siteUrl)));
    try destruct (0 <? length (subpage_list P siteUrl (visited_sitemap P siteUrl)));
    cbn [dapp d_trace d_events d_dispatch d_push d_visit dnil app];
    rewrite ?app_nil_r; repeat (apply Forall_app; split);
    first [ assumption | constructor ].
Qed.

(** X5: during a run every request for a page, whether [fetch] issues
    it or the browser is sent there by [page.goto], goes to a URL that
    the policy of the run allows (and to any URL when the policy is
    null); the seed page, the sitemap entries, rendered or not, and the
    sub-pages are all checked before they are requested. *)
Theorem run_requests_respect_policy (P : Platform) (siteUrl : string) (st : State) :
  exists hits st' evs,
    findAllergyPDFs P siteUrl st = (Return hits, st') /\
    trace st' = trace st ++ evs /\
    forall u, In (EvFetch Page u) evs \/ In (EvGoto u) evs ->
              isAllowedByRobots (robots_rules P siteUrl) u = true.
Proof.
  exists (run_hits P siteUrl), (tell (run_delta P siteUrl) st),
         (d_trace (run_delta P siteUrl)).
  split; [apply findAllergyPDFs_run|]. split; [reflexivity|].
  intros u Hin. pose proof (polite_run P siteUrl) as Hp.
  unfold polite in Hp. rewrite List.Forall_forall in Hp.
  destruct Hin as [Hin | Hin]; exact (Hp _ Hin).
Qed.

(** A hit that is as [good_hit] says and was found on a page that the
    policy allows. *)
Definition found_on_allowed_page (robots : option Robots) (h : PdfHit) : Prop :=
  good_hit robots (source h) h /\ isAllowedByRobots robots (source h) = true.

Lemma good_hits_found (robots : option Robots) (u : string) (hits : list PdfHit) :
  isAllowedByRobots robots u = true ->
  Forall (good_hit robots u) hits -> Forall (found_on_allowed_page robots) hits.
Proof.
  intros Hu H. induction H as [|h hits Hgood _ IH]; constructor; [|exact IH].
  assert (Hsrc : source h = u) by apply Hgood.
  unfold found_on_allowed_page. now rewrite Hsrc.
Qed.

Lemma page_hits_found (P : Platform) (robots : option Robots) (u : string) :
  Forall (found_on_allowed_page robots) (page_hits P u robots).
Proof.
  pose proof (page_hits_good P u robots) as H. unfold page_hits in *.
  destruct (_ && _) eqn:G; [constructor|].
  now apply (good_hits_found robots u), H; apply guard_passed.
Qed.

Lemma js_hits_found (P : Platform) (robots : option Robots) (u : string) :
  Forall (found_on_allowed_page robots) (js_hits P u robots).
Proof.
  pose proof (js_hits_good P u robots) as H. unfold js_hits in *.
  destruct (_ && _) eqn:G; [constructor|].
  now apply (good_hits_found robots u), H; apply guard_passed.
Qed.

Lemma sitemap_loop_found (P : Platform) (siteUrl : string) (sitemapUrls : list JsVal)
    (pdfLinks : list PdfHit) :
  Forall (found_on_allowed_page (robots_rules P siteUrl)) pdfLinks ->
  match fst (sitemap_loop P siteUrl sitemapUrls pdfLinks) with
  | Return hits => Forall (found_on_allowed_page (robots_rules P siteUrl)) hits
  | _ => True
  end.
Proof.
  revert pdfLinks. induction sitemapUrls as [|v urls IH]; intros pdfLinks Hacc;
    [exact Hacc|].
  destruct v as [u| |]; cbn [sitemap_loop]; try exact I.
  assert (Hnext : Forall (found_on_allowed_page (robots_rules P siteUrl))
                         (pdfLinks ++ sitemap_hits P siteUrl u)).
  { apply Forall_app. split; [exact Hacc|]. unfold sitemap_hits.
    destruct (_ || _); [apply js_hits_found | apply page_hits_found]. }
  destruct (sitemap_scan_error P siteUrl u); [exact I|].
  specialize (IH _ Hnext). now destruct (sitemap_loop P siteUrl urls _).
Qed.

Lemma run_hits_found (P : Platform) (siteUrl : string) :
  Forall (found_on_allowed_page (robots_rules P siteUrl)) (run_hits P siteUrl).
Proof.
  unfold run_hits.
  pose proof (sitemap_loop_found P siteUrl
                (sitemap_list P siteUrl (visited_seed siteUrl)) [] (Forall_nil_2 _)) as Hloop.
  destruct (fst (sitemap_loop P siteUrl _ [])); try apply page_hits_found.
  apply Forall_app. split; [apply Forall_app; split; [apply page_hits_found | exact Hloop]|].
  induction (subpage_list P siteUrl (visited_sitemap P siteUrl)) as [|u l IH];
    [constructor|].
  cbn [flat_map]. apply Forall_app. split; [apply page_hits_found | exact IH].
Qed.

(** X6: every hit that a run returns has a URL ending in [.pdf], a
    keyword match and a non-empty text, was found on a page that the
    policy of the run allows, and points to a target that the policy, a
    parsed one, allows. *)
Theorem run_hits_are_allowed_pdfs (P : Platform) (siteUrl : string) (st : State) :
  exists hits st',
    findAllergyPDFs P siteUrl st = (Return hits, st') /\
    Forall (found_on_allowed_page (robots_rules P siteUrl)) hits.
Proof.
  eexists _, _. split; [apply findAllergyPDFs_run | apply run_hits_found].
Qed.

(** X7: when the policy of the run is null, because robots.txt cannot be
    requested, the run returns no hit at all, whatever the site holds:
    neither scanner pushes a hit without a parsed policy. *)
Theorem run_without_policy_finds_nothing (P : Platform) (siteUrl : string) (st : State) :
  robots_rules P siteUrl = None ->
  exists st', findAllergyPDFs P siteUrl st = (Return [], st').
Proof.
  intros Hnull. rewrite findAllergyPDFs_run. eexists. f_equal. f_equal.
  pose proof (run_hits_found P siteUrl) as H. rewrite Hnull in H.
  destruct (run_hits P siteUrl) as [|h hits]; [reflexivity|].
  apply Forall_cons_1 in H as [[(_ & _ & _ & _ & r & Hr & _) _] _]. discriminate.
Qed.

Lemma run_without_policy_on_site :
  exists st', findAllergyPDFs (Site.platform None) Site.seed initial = (Return [], st').
Proof.
  exact (run_without_policy_finds_nothing (Site.platform None) Site.seed initial eq_refl).
Defined.

(** X8: a run neither reads nor writes the module-level [robotsCache]:
    [findAllergyPDFs] asks [getRobotsRules], not the cached variant. *)
Theorem run_leaves_robotsCache_alone (P : Platform) (siteUrl : string) (st : State) :
  robotsCache (snd (findAllergyPDFs P siteUrl st)) = robotsCache st /\
  forall cache,
    fst (findAllergyPDFs P siteUrl
           {| robotsCache := cache; trace := trace st;
              visitedHistory := visitedHistory st; dispatched := dispatched st;
              gathered := gathered st |})
    = fst (findAllergyPDFs P siteUrl st).
Proof.
  split; [now rewrite findAllergyPDFs_run|].
  intros cache. now rewrite !findAllergyPDFs_run.
Qed.

(** ** The cache of robots policies, continued *)

Lemma getRobotsRulesWithCache_miss_run (P : Platform) (origin : string) (st : State) :
  robotsCache st !! origin = None ->
  fst (getRobotsRulesWithCache P origin st) = Return (robots_rules P origin) /\
  robotsCache (snd (getRobotsRulesWithCache P origin st)) =
  match robots_rules P origin with
  | Some rules => <[origin := rules]> (robotsCache st)
  | None => robotsCache st
  end.
Proof.
  intros Hmiss. unfold robots_rules.
  destruct (URL_href P "/robots.txt" origin) as [robotsUrl|] eqn:Hurl.
  - destruct (http P robotsUrl) as [response|] eqn:Hhttp.
    + rewrite (getRobotsRulesWithCache_miss P origin robotsUrl response st Hurl Hhttp Hmiss).
      split; reflexivity.
    + assert (Hrun : getRobotsRulesWithCache P origin st =
                     (Return None, tell (d_events [EvFetch RobotsTxt robotsUrl]) st)).
      { unfold getRobotsRulesWithCache. rewrite Hmiss.
        unfold try_catch, new_URL, fetch. rewrite Hurl. run. unfold ret at 1.
        cbn beta iota. run. now rewrite Hhttp. }
      rewrite Hrun. split; reflexivity.
  - assert (Hrun : getRobotsRulesWithCache P origin st = (Return None, st)).
    { unfold getRobotsRulesWithCache. rewrite Hmiss.
      unfold try_catch, new_URL. now rewrite Hurl. }
    rewrite Hrun. split; reflexivity.
Qed.

(** X9: [getRobotsRulesWithCache] never removes or replaces an entry of
    [robotsCache]; a cached origin is answered from the cache without a
    request, whatever the network would say now; on a miss it answers as
    [getRobotsRules] does, and a policy it returns is then in the cache. *)
Theorem robotsCache_only_grows (P : Platform) (origin : string) (st : State) :
  (forall o r,
      robotsCache st !! o = Some r ->
      robotsCache (snd (getRobotsRulesWithCache P origin st)) !! o = Some r) /\
  (forall r,
      robotsCache st !! origin = Some r ->
      getRobotsRulesWithCache P origin st = (Return (Some r), st)) /\
  (robotsCache st !! origin = None ->
   fst (getRobotsRulesWithCache P origin st) = fst (getRobotsRules P origin st)) /\
  (forall rules,
      fst (getRobotsRulesWithCache P origin st) = Return (Some rules) ->
      robotsCache (snd (getRobotsRulesWithCache P origin st)) !! origin = Some rules).
Proof.
  destruct (robotsCache st !! origin) as [cached|] eqn:Hlookup.
  - rewrite (getRobotsRulesWithCache_hit P origin cached st Hlookup). cbn [fst snd].
    split; [now intros o r|]. split; [now intros r [= ->]|].
    split; [discriminate|]. now intros rules [= <-].
  - destruct (getRobotsRulesWithCache_miss_run P origin st Hlookup) as [Hout Hcache].
    rewrite Hout, Hcache, getRobotsRules_run. cbn [fst].
    split; [|split; [discriminate | split; [reflexivity|]]].
    + intros o r Ho. destruct (robots_rules P origin); [|exact Ho].
      rewrite lookup_insert_ne; [exact Ho | congruence].
    + intros rules [= ->]. apply lookup_insert_eq.
Qed.

(** A cached policy is returned although the request for robots.txt
    would fail. *)
Lemma robotsCache_hit_without_network :
  let st := {| robotsCache := {[ Site.seed := Site.allowAll ]}; trace := [];
               visitedHistory := []; dispatched := []; gathered := [] |} in
  getRobotsRulesWithCache (Site.platform None) Site.seed st
  = (Return (Some Site.allowAll), st) /\
  fst (getRobotsRules (Site.platform None) Site.seed st) = Return None.
Proof.
  cbv zeta. split.
  - refine (proj1 (proj2 (robotsCache_only_grows (Site.platform None) Site.seed _))
                  Site.allowAll _).
    apply lookup_singleton_eq.
  - reflexivity.
Defined.

(** ** The scan of the sitemap entries *)

(** The rendered scan of a sitemap URL throws: the URL is one that the
    loop hands to the rendered scanner (line 288), the policy lets it
    through, and the handler's call of [browser.close()] rejects. *)
Definition rendered_scan_throws (P : Platform) (robots : option Robots) (u : string)
    : Prop :=
  includes "allergen" u || includes "origin" u = true /\
  truthy_robots robots && negb (isAllowedByRobots robots u) = false /\
  exists err, handler_error (puppeteer P u) = Some err.

Lemma sitemap_scan_error_spec (P : Platform) (siteUrl u : string) :
  (exists err, sitemap_scan_error P siteUrl u = Some err) <->
  rendered_scan_throws P (robots_rules P siteUrl) u.
Proof.
  unfold sitemap_scan_error, rendered_scan_throws, js_error.
  destruct (includes "allergen" u || includes "origin" u).
  - destruct (truthy_robots _ && negb _).
    + split; [intros [err H]; discriminate | intros (_ & H & _); discriminate].
    + split; [intros H; repeat split; exact H | intros (_ & _ & H); exact H].
  - split; [intros [err H]; discriminate | intros (H & _); discriminate].
Qed.

Lemma sitemap_scan_error_none (P : Platform) (siteUrl u : string) :
  ~ rendered_scan_throws P (robots_rules P siteUrl) u ->
  sitemap_scan_error P siteUrl u = None.
Proof.
  intros H. destruct (sitemap_scan_error P siteUrl u) as [err|] eqn:E; [|reflexivity].
  destruct H. apply sitemap_scan_error_spec. now exists err.
Qed.

Lemma sitemap_loop_strings (P : Platform) (siteUrl : string) (us : list string)
    (pdfLinks : list PdfHit) :
  (forall u, u ∈ us -> ~ rendered_scan_throws P (robots_rules P siteUrl) u) ->
  fst (sitemap_loop P siteUrl (JStr <$> us) pdfLinks) =
  Return (pdfLinks ++ flat_map (sitemap_hits P siteUrl) us).
Proof.
  revert pdfLinks. induction us as [|u us IH]; intros pdfLinks Hus.
  - cbn. now rewrite app_nil_r.
  - cbn [fmap list_fmap sitemap_loop flat_map].
    rewrite sitemap_scan_error_none by (apply Hus, list_elem_of_here).
    specialize (IH (pdfLinks ++ sitemap_hits P siteUrl u)
                   (fun x Hx => Hus x (list_elem_of_further _ _ _ Hx))).
    change (list_fmap string JsVal JStr us) with (JStr <$> us).
    destruct (sitemap_loop P siteUrl (JStr <$> us) _) as [out d]. cbn [fst] in *.
    now rewrite IH, app_assoc.
Qed.

Lemma all_strings (urls : list JsVal) :
  (forall v, v ∈ urls -> exists u, v = JStr u) -> exists us, urls = JStr <$> us.
Proof.
  induction urls as [|v urls IH]; intros H; [now exists []|].
  destruct (H v (list_elem_of_here _ _)) as [u ->].
  destruct IH as [us ->]; [intros w Hw; apply H; now apply list_elem_of_further|].
  now exists (u :: us).
Qed.

(** The entry stops the loop of [searchSitemapUrlsForPdfs] with an
    error: it is not a string, so that [sitemapUrl.includes] fails, or
    it is a string whose rendered scan throws. *)
Definition entry_throws (P : Platform) (robots : option Robots) (v : JsVal) : Prop :=
  match v with
  | JStr u => rendered_scan_throws P robots u
  | JObj _ | JUndefined => True
  end.

Lemma sitemap_loop_throws_iff (P : Platform) (siteUrl : string) (urls : list JsVal)
    (pdfLinks : list PdfHit) :
  (exists e, fst (sitemap_loop P siteUrl urls pdfLinks) = Throw e) <->
  exists v, v ∈ urls /\ entry_throws P (robots_rules P siteUrl) v.
Proof.
  revert pdfLinks. induction urls as [|v urls IH]; intros pdfLinks.
  - split; [intros [e H]; discriminate | intros (v & Hv & _); now apply elem_of_nil in Hv].
  - destruct v as [u| |]; cbn [sitemap_loop].
    + pose proof (sitemap_scan_error_spec P siteUrl u) as Hspec.
      destruct (sitemap_scan_error P siteUrl u) as [err|].
      * split; [|intros _; eexists; reflexivity].
        intros _. exists (JStr u). split; [apply list_elem_of_here|].
        apply Hspec. now exists err.
      * specialize (IH (pdfLinks ++ sitemap_hits P siteUrl u)).
        destruct (sitemap_loop P siteUrl urls _) as [out d]. cbn [fst] in *.
        rewrite IH. split.
        -- intros (v & Hv & Hns). exists v.
           split; [now apply list_elem_of_further | exact Hns].
        -- intros (v & Hv & Hns). apply elem_of_cons in Hv as [-> | Hv].
           ++ apply Hspec in Hns as [err Herr]. discriminate.
           ++ now exists v.
    + split; [|intros _; eexists; reflexivity].
      intros _. exists (JObj id). split; [apply list_elem_of_here | exact I].
    + split; [|intros _; eexists; reflexivity].
      intros _. exists JUndefined. split; [apply list_elem_of_here | exact I].
Qed.

(** X10: under the policy of a run, [searchSitemapUrlsForPdfs] throws
    exactly when its list holds an entry that is not a string, or a
    string that goes to the rendered scanner (it contains [allergen] or
    [origin]) and whose rendered scan throws.  On a list without such an
    entry it returns the hits of the entries, each scanned by the
    scanner line 288 chooses for it, concatenated in the order of the
    list. *)
Theorem sitemap_scan_throws_iff (P : Platform) (siteUrl : string) (urls : list JsVal)
    (st : State) :
  ((exists e,
       fst (searchSitemapUrlsForPdfs P urls (robots_rules P siteUrl) st) = Throw e) <->
   exists v, v ∈ urls /\ entry_throws P (robots_rules P siteUrl) v) /\
  (forall us,
      urls = JStr <$> us ->
      (forall u, u ∈ us -> ~ rendered_scan_throws P (robots_rules P siteUrl) u) ->
      fst (searchSitemapUrlsForPdfs P urls (robots_rules P siteUrl) st) =
      Return (flat_map
                (fun u => if includes "allergen" u || includes "origin" u
                          then js_hits P u (robots_rules P siteUrl)
                          else page_hits P u (robots_rules P siteUrl)) us)).
Proof.
  unfold searchSitemapUrlsForPdfs. rewrite sitemap_loop_run. cbn [fst]. split.
  - apply sitemap_loop_throws_iff.
  - intros us -> Hus. now apply sitemap_loop_strings.
Qed.

Lemma sitemap_scan_of_one_page :
  fst (searchSitemapUrlsForPdfs (Site.platform (Some "")) [JStr Site.allergenPage]
         (robots_rules (Site.platform (Some "")) Site.seed) initial)
  = Return [ {| url := Site.pdf2; text := "Ingredients"; source := Site.allergenPage |} ].
Proof.
  rewrite (proj2 (sitemap_scan_throws_iff (Site.platform (Some "")) Site.seed
                    [JStr Site.allergenPage] initial) [Site.allergenPage] eq_refl).
  - reflexivity.
  - intros u Hu (_ & _ & err & Herr). apply list_elem_of_singleton in Hu as ->.
    discriminate.
Defined.

(** ** The batch scheduler, continued *)

Definition starts_of (tr : list Event) : list string :=
  omap (fun ev => match ev with EvStart u => Some u | _ => None end) tr.

Definition settles_of (tr : list Event) : list string :=
  omap (fun ev => match ev with EvSettle u => Some u | _ => None end) tr.

(** The pages requested in a trace, in order. *)
Definition pages_of (tr : list Event) : list string :=
  omap (fun ev => match ev with EvFetch Page u => Some u | _ => None end) tr.

(** The page is let through by the guard of lines 64, 119 and 194. *)
Definition let_through (robots : option Robots) (u : string) : bool :=
  negb (truthy_robots robots && negb (isAllowedByRobots robots u)).

Section BatchTrace.

Context (P : Platform) (robots : option Robots).

Lemma pages_of_page_events (u : string) :
  pages_of (page_events u robots) = if let_through robots u then [u] else [].
Proof. unfold page_events, let_through. now destruct (_ && _). Qed.

Lemma batch_trace (batch : list string) :
  starts_of (d_trace (batch_delta P robots batch)) = batch /\
  settles_of (d_trace (batch_delta P robots batch)) = batch /\
  pages_of (d_trace (batch_delta P robots batch)) = List.filter (let_through robots) batch.
Proof.
  cbn [batch_delta d_trace]. unfold starts_of, settles_of, pages_of.
  cbn [omap list_omap]. rewrite !omap_app.
  assert (H1 : forall l : list string,
             omap (fun ev => match ev with EvStart u => Some u | _ => None end)
                  (map EvStart l) = l /\
             omap (fun ev => match ev with EvSettle u => Some u | _ => None end)
                  (map EvStart l) = [] /\
             omap (fun ev => match ev with EvFetch Page u => Some u | _ => None end)
                  (map EvStart l) = []).
  { induction l as [|u l (IH1 & IH2 & IH3)]; [repeat split|].
    cbn [map omap list_omap]. unfold omap in *. now rewrite IH1, IH2, IH3. }
  assert (H2 : forall l : list string,
             omap (fun ev => match ev with EvStart u => Some u | _ => None end)
                  (flat_map (worker_events robots) l) = [] /\
             omap (fun ev => match ev with EvSettle u => Some u | _ => None end)
                  (flat_map (worker_events robots) l) = l /\
             omap (fun ev => match ev with EvFetch Page u => Some u | _ => None end)
                  (flat_map (worker_events robots) l) = List.filter (let_through robots) l).
  { induction l as [|u l (IH1 & IH2 & IH3)]; [repeat split|].
    cbn [flat_map List.filter]. rewrite !omap_app, IH1, IH2, IH3.
    unfold worker_events, page_events, let_through.
    destruct (_ && _); repeat split. }
  destruct (H1 batch) as (-> & -> & ->). destruct (H2 batch) as (-> & -> & ->).
  now rewrite app_nil_r.
Qed.

Lemma batches_trace (batches : list (list string)) :
  starts_of (d_trace (batches_delta P robots batches)) = concat batches /\
  settles_of (d_trace (batches_delta P robots batches)) = concat batches /\
  pages_of (d_trace (batches_delta P robots batches))
  = List.filter (let_through robots) (concat batches).
Proof.
  induction batches as [|b batches (IH1 & IH2 & IH3)]; [repeat split|].
  destruct (batch_trace b) as (H1 & H2 & H3).
  cbn [batches_delta dapp d_trace concat]. unfold starts_of, settles_of, pages_of in *.
  rewrite !omap_app, H1, H2, H3, IH1, IH2, IH3, List.filter_app. repeat split.
Qed.

End BatchTrace.

(** X11: for a positive [maxConcurrent], [searchSubpagesParallel] starts
    one worker for each URL of its list, in the order of the list, and
    each of them settles; the pages it requests are, in that order, the
    URLs that the policy lets through; no URL is dropped or taken twice
    by the batching. *)
Theorem every_url_is_scanned_once (P : Platform) (robots : option Robots)
    (urls : list string) (maxConcurrent : nat) (st : State) :
  0 < maxConcurrent ->
  exists hits st' evs,
    searchSubpagesParallel P urls robots maxConcurrent st = (Return hits, st') /\
    trace st' = trace st ++ evs /\
    starts_of evs = urls /\
    settles_of evs = urls /\
    pages_of evs = List.filter (let_through robots) urls.
Proof.
  intros Hmc. rewrite (searchSubpagesParallel_run P robots maxConcurrent urls st Hmc).
  eexists _, _, _. split; [reflexivity|]. split; [reflexivity|].
  destruct (batches_trace P robots (chunks maxConcurrent urls)) as (H1 & H2 & H3).
  now rewrite H1, H2, H3, (chunks_concat maxConcurrent Hmc).
Qed.

Lemma every_url_is_scanned_once_three :
  exists hits st' evs,
    searchSubpagesParallel (Site.platform None)
      [Site.seed; Site.allergenPage; Site.menuPage] (Some Site.allowAll) 2 initial
    = (Return hits, st') /\
    trace st' = evs /\
    starts_of evs = [Site.seed; Site.allergenPage; Site.menuPage] /\
    pages_of evs = [Site.seed; Site.allergenPage; Site.menuPage].
Proof.
  destruct (every_url_is_scanned_once (Site.platform None) (Some Site.allowAll)
              [Site.seed; Site.allergenPage; Site.menuPage] 2 initial Nat.lt_0_2)
    as (hits & st' & evs & Hrun & Htrace & Hstarts & _ & Hpages).
  exists hits, st', evs. repeat split; assumption.
Defined.

(** X12: with [maxConcurrent = 0] the loop of line 257 does not advance:
    on the empty list [searchSubpagesParallel] returns the empty list at
    once, and on any other list it never returns, however many
    iterations it is given. *)
Theorem zero_concurrency_never_returns (P : Platform) (robots : option Robots)
    (urls : list string) (st : State) :
  urls <> [] ->
  searchSubpagesParallel P [] robots 0 st = (Return [], st) /\
  fst (searchSubpagesParallel P urls robots 0 st) = Diverge /\
  forall fuel, fst (batch_loop P fuel urls robots 0 0 [] st) = Diverge.
Proof.
  intros Hne.
  assert (Hlen : 0 < length urls) by (destruct urls; [contradiction | simpl; lia]).
  split; [reflexivity|]. split.
  - unfold searchSubpagesParallel. now apply batch_loop_zero.
  - intros fuel. now apply batch_loop_zero.
Qed.

Lemma zero_concurrency_one_url :
  fst (searchSubpagesParallel (Site.platform None) [Site.seed] None 0 initial) = Diverge.
Proof.
  exact (proj1 (proj2 (zero_concurrency_never_returns (Site.platform None) None
                         [Site.seed] initial ltac:(discriminate)))).
Defined.

(** ** The requests of a run *)













(** The scan of the sitemap entries of a run throws exactly when an
    entry other than the seed URL does. *)
Lemma run_sitemap_scan_throws (P : Platform) (siteUrl : string) :
  (exists e, fst (sitemap_loop P siteUrl (sitemap_list P siteUrl (visited_seed siteUrl)) [])
             = Throw e) <->
  exists v, v ∈ sitemap_urls P siteUrl /\ v <> JStr siteUrl /\
            entry_throws P (robots_rules P siteUrl) v.
Proof.
  rewrite sitemap_loop_throws_iff. split.
  - intros (v & Hv & Hthrows). apply elem_of_unvisited in Hv as [Hv Hnew].
    exists v. split; [exact Hv|]. split; [|exact Hthrows].
    intros ->. apply Hnew. unfold visited_seed. set_solver.
  - intros (v & Hv & Hne & Hthrows). exists v. split; [|exact Hthrows].
    apply elem_of_unvisited. split; [exact Hv|]. unfold visited_seed.
    rewrite elem_of_union, elem_of_singleton, elem_of_empty. intros [-> | []].
    now apply Hne.
Qed.


(** The site, its sitemap reduced to the allergen page, listed twice. *)
Definition twice_listed_site : Platform :=
  {| URL_href := Site.resolve;
     http := Site.serve (Some "");
     robotsParser := fun _ _ => Site.allowAll;
     cheerio_a := Site.anchors;
     parseStringPromise := fun _ =>
       Some {| urlset_url := Some [ {| loc := Some [JStr Site.allergenPage] |};
                                    {| loc := Some [JStr Site.allergenPage] |} ] |};
     puppeteer := Site.render |}.


(** ** Duplicates *)

Lemma count_unvisited (V : gset JsVal) (urls : list JsVal) (v : JsVal) :
  v ∉ V ->
  count_occ JsVal_eq_dec (unvisited V urls) v = count_occ JsVal_eq_dec urls v.
Proof.
  intros Hv. unfold unvisited. induction urls as [|x urls IH]; [reflexivity|].
  cbn [List.filter]. case_bool_decide as Hx; cbn [negb].
  - cbn [count_occ]. destruct (JsVal_eq_dec x v) as [-> | _]; [contradiction | exact IH].
  - cbn [count_occ]. now rewrite IH.
Qed.

(** X14: the sitemap list is filtered against the visited set before any
    of its entries is marked visited (lines 320-321), so it is not
    de-duplicated.  Whenever the sitemap lists an entry other than the
    seed, a list is handed to [searchSitemapUrlsForPdfs], and every list
    handed to it holds each entry other than the seed as many times as
    the sitemap lists it. *)
Theorem sitemap_duplicates_are_kept (P : Platform) (siteUrl : string) (st : State) :
  exists hits st' dispatches,
    findAllergyPDFs P siteUrl st = (Return hits, st') /\
    dispatched st' = dispatched st ++ dispatches /\
    (forall v,
        v ∈ sitemap_urls P siteUrl -> v <> JStr siteUrl ->
        exists l, (SitemapPhase, l) ∈ dispatches) /\
    (forall l v,
        (SitemapPhase, l) ∈ dispatches -> v <> JStr siteUrl ->
        count_occ JsVal_eq_dec l v = count_occ JsVal_eq_dec (sitemap_urls P siteUrl) v).
Proof.
  exists (run_hits P siteUrl), (tell (run_delta P siteUrl) st), (run_dispatches P siteUrl).
  split; [apply findAllergyPDFs_run|].
  split; [cbn [tell dispatched]; now rewrite run_delta_dispatched|].
  split.
  - intros v Hv Hne. exists (sitemap_list P siteUrl (visited_seed siteUrl)).
    assert (Hin : v ∈ sitemap_list P siteUrl (visited_seed siteUrl)).
    { apply elem_of_unvisited. split; [exact Hv|]. unfold visited_seed.
      rewrite elem_of_union, elem_of_singleton, elem_of_empty. intros [-> | []].
      now apply Hne. }
    unfold run_dispatches. apply list_elem_of_further, elem_of_app. left.
    destruct (sitemap_list P siteUrl (visited_seed siteUrl)) as [|x l];
      [now apply elem_of_nil in Hin|].
    apply list_elem_of_here.
  - intros l v Hl Hv. unfold run_dispatches in Hl.
    assert (Hlist : l = sitemap_list P siteUrl (visited_seed siteUrl)).
    { apply elem_of_cons in Hl as [Hl | Hl]; [discriminate|].
      apply elem_of_app in Hl as [Hl | Hl].
      - destruct (0 <? _); [|now apply elem_of_nil in Hl].
        apply list_elem_of_singleton in Hl. congruence.
      - destruct (fst _); try (now apply elem_of_nil in Hl).
        destruct (0 <? length (subpage_list P siteUrl (visited_sitemap P siteUrl)));
          [|now apply elem_of_nil in Hl].
        apply list_elem_of_singleton in Hl. discriminate. }
    subst l. apply count_unvisited. unfold visited_seed.
    rewrite elem_of_union, elem_of_singleton, elem_of_empty. intros [-> | []].
    now apply Hv.
Qed.

Lemma sitemap_duplicates_on_site :
  exists hits st' dispatches,
    findAllergyPDFs twice_listed_site Site.seed initial = (Return hits, st') /\
    dispatched st' = dispatches /\
    (SitemapPhase, [JStr Site.allergenPage; JStr Site.allergenPage]) ∈ dispatches /\
    length hits = 3.
Proof.
  destruct (sitemap_duplicates_are_kept twice_listed_site Site.seed initial)
    as (hits & st' & dispatches & Hrun & Hdisp & _).
  exists hits, st', dispatches. split; [exact Hrun|]. split; [exact Hdisp|].
  assert (Hst : st' = snd (findAllergyPDFs twice_listed_site Site.seed initial))
    by now rewrite Hrun.
  assert (Hhits : Return hits = fst (findAllergyPDFs twice_listed_site Site.seed initial))
    by now rewrite Hrun.
  cbn [app dispatched initial] in Hdisp. rewrite <- Hdisp, Hst. split.
  - apply list_elem_of_In. vm_compute. tauto.
  - vm_compute in Hhits. now injection Hhits as ->.
Defined.

(** ** Letter case *)

Lemma lower_ascii_idem (c : ascii) : lower_ascii (lower_ascii c) = lower_ascii c.
Proof. destruct c as [[] [] [] [] [] [] [] []]; reflexivity. Qed.

Lemma toLowerCase_idem (s : string) : toLowerCase (toLowerCase s) = toLowerCase s.
Proof.
  induction s as [|c s IH]; [reflexivity|].
  cbn [toLowerCase]. now rewrite lower_ascii_idem, IH.
Qed.

(** X15: the classifier does not see the case of the letters A to Z:
    a URL and a link text qualify exactly when their lower-case forms
    do, so [ALLERGY.PDF] and [allergy.pdf] are classified alike. *)
Theorem classification_ignores_case (fullUrl linkText : string) :
  qualifies (toLowerCase fullUrl) (toLowerCase linkText) = qualifies fullUrl linkText.
Proof.
  unfold qualifies, isPDF, isAllergyKeyword, regexp_test_i.
  now rewrite !toLowerCase_idem.
Qed.

(** ** Downloads

    [downloadPDF] and the loop of [main] that calls it for each selected
    hit (lines 419-430 and 485-491).  The files are a map from paths to
    contents; [body] stands for the bytes that [arrayBuffer()] yields. *)

Section Downloads.

Context (P : Platform).

(** Whether [fs.writeFile] succeeds on a path. *)
Context (can_write : string -> bool).

(** [path.join] *)
Context (path_join : string -> string -> string).

(** [downloadPDF(url, filepath)]: every failure is caught and logged. *)
Definition downloadPDF (pdfUrl filepath : string) (files : gmap string string)
    : gmap string string :=
  match http P pdfUrl with
  | Some response =>
      if ok response then
        if can_write filepath then <[filepath := body response]> files
        else files                                  (* writeFile rejects *)
      else files                                    (* throw new Error(HTTP Error) *)
  | None => files                                   (* fetch rejects *)
  end.

(** The loop of lines 485-491; [None] stands for the TypeError of
    reading [pdf.url] when [pdfLinks[idx]] is undefined.  The file name
    is built from the chain name and from the timestamp taken before the
    loop, not from the hit. *)
Fixpoint download_selected (normalizedChainName timestamp : string)
    (pdfLinks : list PdfHit) (selectedIndices : list nat) (files : gmap string string)
    : option (gmap string string) :=
  match selectedIndices with
  | [] => Some files
  | idx :: rest =>
      match pdfLinks !! idx with
      | None => None
      | Some pdf =>
          let filename :=
            String.append normalizedChainName
              (String.append "_" (String.append timestamp ".pdf")) in
          let filepath := path_join "pdfs" filename in
          download_selected normalizedChainName timestamp pdfLinks rest
            (downloadPDF (url pdf) filepath files)
      end
  end.

(** The content that a download would write, when it succeeds. *)
Definition downloaded (filepath : string) (pdf : PdfHit) : option string :=
  match http P (url pdf) with
  | Some response => if ok response && can_write filepath then Some (body response) else None
  | None => None
  end.

Lemma downloadPDF_spec (pdf : PdfHit) (filepath : string) (files : gmap string string) :
  downloadPDF (url pdf) filepath files =
  match downloaded filepath pdf with
  | Some content => <[filepath := content]> files
  | None => files
  end.
Proof.
  unfold downloadPDF, downloaded. destruct (http P (url pdf)) as [response|]; [|reflexivity].
  destruct (ok response); [|reflexivity]. now destruct (can_write filepath).
Qed.

End Downloads.

(** The contents written by the loop, in order: one for each selected
    hit whose download succeeds. *)
Definition written (P : Platform) (can_write : string -> bool) (filepath : string)
    (pdfLinks : list PdfHit) (selectedIndices : list nat) : list string :=
  omap (fun idx => pdfLinks !! idx ≫= downloaded P can_write filepath) selectedIndices.

(** X16: the downloads of one run of [main] all go to the same path,
    [pdfs/<chain name>_<timestamp>.pdf]: the loop does not throw on
    indices within bounds, and afterwards the files are the files of
    before with, at that one path, the content of the last download that
    succeeded; the earlier downloads are overwritten, and nothing changes
    when none succeeds. *)
Theorem downloads_share_one_file (P : Platform) (can_write : string -> bool)
    (path_join : string -> string -> string) (normalizedChainName timestamp : string)
    (pdfLinks : list PdfHit) (selectedIndices : list nat) (files : gmap string string) :
  Forall (fun idx => idx < length pdfLinks) selectedIndices ->
  let filepath :=
    path_join "pdfs"
      (String.append normalizedChainName
         (String.append "_" (String.append timestamp ".pdf"))) in
  download_selected P can_write path_join normalizedChainName timestamp
    pdfLinks selectedIndices files =
  Some match last (written P can_write filepath pdfLinks selectedIndices) with
       | Some content => <[filepath := content]> files
       | None => files
       end.
Proof.
  intros Hvalid filepath. revert files.
  induction Hvalid as [|idx rest Hidx _ IH]; intros files; [reflexivity|].
  cbn [download_selected]. destruct (lookup_lt_is_Some_2 pdfLinks idx Hidx) as [pdf Hpdf].
  rewrite Hpdf. fold filepath. rewrite downloadPDF_spec, IH.
  unfold written. cbn [omap list_omap]. rewrite Hpdf. cbn [mbind option_bind].
  destruct (downloaded P can_write filepath pdf) as [content|]; [|reflexivity].
  rewrite last_cons.
  destruct (last (omap _ rest)) as [later|]; [|reflexivity].
  now rewrite insert_insert_eq.
Qed.

(** The site's two PDFs, served with their contents. *)
Definition pdf_site : Platform :=
  {| URL_href := Site.resolve;
     http := fun u =>
       if String.eqb u Site.pdf then Some {| ok := true; body := "%PDF allergy" |}
       else if String.eqb u Site.pdf2 then Some {| ok := true; body := "%PDF ingredients" |}
       else None;
     robotsParser := fun _ _ => Site.allowAll;
     cheerio_a := Site.anchors;
     parseStringPromise := Site.parse;
     puppeteer := Site.render |}.

(** Both hits selected: one file, holding the second PDF. *)
Lemma downloads_share_one_file_two_hits :
  download_selected pdf_site (fun _ => true)
    (fun dir name => String.append dir (String.append "/" name))
    "Example_Chain" "2026-01-01T12-00-00"
    [ Site.expected;
      {| url := Site.pdf2; text := "Ingredients"; source := Site.allergenPage |} ]
    [0; 1] ∅
  = Some {[ "pdfs/Example_Chain_2026-01-01T12-00-00.pdf" := "%PDF ingredients" ]}.
Proof.
  rewrite (downloads_share_one_file pdf_site (fun _ => true)
             (fun dir name => String.append dir (String.append "/" name))
             "Example_Chain" "2026-01-01T12-00-00"
             [ Site.expected;
               {| url := Site.pdf2; text := "Ingredients"; source := Site.allergenPage |} ]
             [0; 1] ∅).
  - reflexivity.
  - repeat constructor.
Defined.

(** ** When the policy is null *)

(** X17: [getRobotsRules] never throws, and it returns [null] exactly
    when the URL of robots.txt cannot be built or the request fails; a
    response of any status, an error page included, is parsed into a
    policy. *)
Theorem getRobotsRules_null_iff (P : Platform) (baseUrl : string) (st : State) :
  exists robots st',
    getRobotsRules P baseUrl st = (Return robots, st') /\
    (robots = None <->
     URL_href P "/robots.txt" baseUrl = None \/
     exists robotsUrl,
       URL_href P "/robots.txt" baseUrl = Some robotsUrl /\ http P robotsUrl = None) /\
    (forall robotsUrl response,
        URL_href P "/robots.txt" baseUrl = Some robotsUrl ->
        http P robotsUrl = Some response ->
        robots = Some (robotsParser P robotsUrl (body response))).
Proof.
  rewrite getRobotsRules_run. eexists _, _. split; [reflexivity|].
  unfold robots_rules. destruct (URL_href P "/robots.txt" baseUrl) as [robotsUrl|].
  - destruct (http P robotsUrl) as [response|] eqn:Hhttp.
    + split; [|now intros u r [= <-]; rewrite Hhttp; intros [= <-]].
      split; [discriminate|]. intros [H | (u & [= <-] & H)]; [discriminate|].
      rewrite Hhttp in H. discriminate.
    + split; [|intros u r [= <-]; rewrite Hhttp; discriminate].
      split; [|reflexivity]. intros _. right. now exists robotsUrl.
  - split; [|discriminate]. split; [now left | reflexivity].
Qed.

Lemma getRobotsRules_null_on_site :
  exists st', getRobotsRules (Site.platform None) Site.seed initial = (Return None, st').
Proof.
  destruct (getRobotsRules_null_iff (Site.platform None) Site.seed initial)
    as (robots & st' & Hrun & Hnull & _).
  exists st'. rewrite Hrun. f_equal. f_equal. apply Hnull.
  right. exists Site.robotsUrl. split; reflexivity.
Defined.

(** ** The number of batches *)

Lemma chunks_length {A} (n : nat) (l : list A) :
  0 < n -> length (chunks n l) = (length l + n - 1) / n.
Proof.
  intros Hn. set (k := (length l + n - 1) / n).
  pose proof (Nat.div_mod_eq (length l + n - 1) n) as Hdiv.
  pose proof (Nat.mod_upper_bound (length l + n - 1) n ltac:(lia)) as Hmod.
  fold k in Hdiv.
  assert (Hnone : chunks n l !! k = None).
  { rewrite (chunks_lookup n Hn). destruct (Nat.ltb_spec (k * n) (length l)); [nia | reflexivity]. }
  apply lookup_ge_None in Hnone.
  destruct k as [|k']; [lia|].
  assert (Hsome : is_Some (chunks n l !! k')).
  { rewrite (chunks_lookup n Hn). destruct (Nat.ltb_spec (k' * n) (length l)); [eauto | nia]. }
  apply lookup_lt_is_Some in Hsome. lia.
Qed.

(** X18: for a positive [maxConcurrent], [searchSubpagesParallel] slices
    off exactly ceil(n / maxConcurrent) batches for a list of [n] URLs,
    none at all for the empty list. *)
Theorem number_of_batches (P : Platform) (robots : option Robots) (urls : list string)
    (maxConcurrent : nat) (st : State) :
  0 < maxConcurrent ->
  exists hits st' evs,
    searchSubpagesParallel P urls robots maxConcurrent st = (Return hits, st') /\
    trace st' = trace st ++ evs /\
    length (batches_of evs) = (length urls + maxConcurrent - 1) / maxConcurrent.
Proof.
  intros Hmc. rewrite (searchSubpagesParallel_run P robots maxConcurrent urls st Hmc).
  eexists _, _, _. split; [reflexivity|]. split; [reflexivity|].
  now rewrite batches_of_delta, chunks_length.
Qed.

Lemma number_of_batches_seven_by_three :
  exists hits st' evs,
    searchSubpagesParallel (Site.platform None)
      ["a"; "b"; "c"; "d"; "e"; "f"; "g"] None 3 initial = (Return hits, st') /\
    trace st' = evs /\
    length (batches_of evs) = 3.
Proof.
  destruct (number_of_batches (Site.platform None) None
              ["a"; "b"; "c"; "d"; "e"; "f"; "g"] 3 initial ltac:(lia))
    as (hits & st' & evs & Hrun & Htrace & Hlen).
  exists hits, st', evs. repeat split; assumption.
Defined.

(** ** Documents that are fetched as pages *)

(** A hit of the base page whose URL starts with the base URL is also in
    the list of its sub-pages, and the policy lets it through. *)
Lemma seed_hit_is_subpage (P : Platform) (siteUrl : string) (robots : option Robots)
    (h : PdfHit) :
  h ∈ page_hits P siteUrl robots ->
  startsWith siteUrl (url h) = true ->
  url h ∈ subpage_urls P siteUrl robots /\
  let_through robots (url h) = true /\
  let_through robots siteUrl = true.
Proof.
  intros Hh Hprefix.
  assert (Hgood : good_hit robots siteUrl h).
  { pose proof (page_hits_good P siteUrl robots) as HF.
    rewrite List.Forall_forall in HF. now apply HF, list_elem_of_In. }
  rewrite page_hits_omap in Hh. unfold subpage_urls, let_through.
  destruct (truthy_robots robots && negb (isAllowedByRobots robots siteUrl)) eqn:G;
    [now apply elem_of_nil in Hh|].
  destruct (http P siteUrl) as [response|]; [|now apply elem_of_nil in Hh].
  apply list_elem_of_omap in Hh as (el & Hel & Hhit).
  split; [|split; [|reflexivity]].
  - apply (fold_each_a_subpage P siteUrl _ [] (NoDup_nil_2 (A:=string))).
    right. exists el. split; [exact Hel|].
    unfold anchor_hit in Hhit. unfold subpage_of.
    destruct (attr_href el) as [hr|]; [|discriminate].
    destruct (truthy hr); [|discriminate].
    unfold link_hit in Hhit.
    destruct (URL_href P hr siteUrl) as [fullUrl|]; [|discriminate].
    destruct (_ && _) in Hhit; [|discriminate].
    injection Hhit as <-. cbn [url] in Hprefix. now rewrite Hprefix.
  - destruct Hgood as (_ & _ & _ & _ & r & -> & Hallowed).
    cbn [truthy_robots isAllowedByRobots]. now rewrite Hallowed.
Qed.

Lemma pages_of_app (a b : list Event) : pages_of (a ++ b) = pages_of a ++ pages_of b.
Proof. unfold pages_of. apply omap_app. Qed.

(** X19: in a run in which no sitemap entry makes the sitemap scan
    throw, every document found on the seed page whose URL starts with
    the seed URL, and that the sitemap does not list, is itself requested
    as a page: the discovery of sub-pages does not tell documents from
    pages, so the sub-page phase fetches the PDF and scans it as
    HTML. *)
Theorem same_site_documents_are_fetched_as_pages (P : Platform) (siteUrl : string)
    (st : State) :
  (forall v, v ∈ sitemap_urls P siteUrl -> v <> JStr siteUrl ->
             ~ entry_throws P (robots_rules P siteUrl) v) ->
  exists hits st' evs,
    findAllergyPDFs P siteUrl st = (Return hits, st') /\
    trace st' = trace st ++ evs /\
    forall h,
      h ∈ page_hits P siteUrl (robots_rules P siteUrl) ->
      startsWith siteUrl (url h) = true ->
      JStr (url h) ∉ sitemap_urls P siteUrl ->
      h ∈ hits /\ isPDF (url h) = true /\ url h ∈ pages_of evs.
Proof.
  intros Hquiet.
  exists (run_hits P siteUrl), (tell (run_delta P siteUrl) st),
         (d_trace (run_delta P siteUrl)).
  split; [apply findAllergyPDFs_run|]. split; [reflexivity|].
  intros h Hh Hprefix Hsitemap.
  destruct (seed_hit_is_subpage P siteUrl _ h Hh Hprefix) as (Hsub & Hlet & Hseed).
  assert (Hpdf : isPDF (url h) = true).
  { pose proof (page_hits_good P siteUrl (robots_rules P siteUrl)) as HF.
    rewrite List.Forall_forall in HF. now apply HF, list_elem_of_In. }
  unfold run_hits, run_delta.
  pose proof (run_sitemap_scan_throws P siteUrl) as Hthrows.
  pose proof (sitemap_loop_returns_or_throws P siteUrl
                (sitemap_list P siteUrl (visited_seed siteUrl)) []) as Hsettles.
  destruct (sitemap_loop P siteUrl (sitemap_list P siteUrl (visited_seed siteUrl)) [])
    as [[sitemapPdfs|e|] d]; cbn [fst snd] in *; [| | contradiction].
  2: { destruct (proj1 Hthrows (ex_intro _ e eq_refl)) as (v & Hv & Hne & Hv').
       now destruct (Hquiet v Hv Hne). }
  split; [rewrite !elem_of_app; now left; left|]. split; [exact Hpdf|].
  assert (Hpage : siteUrl ∈ pages_of (page_events siteUrl (robots_rules P siteUrl))).
  { rewrite pages_of_page_events, Hseed. apply list_elem_of_here. }
  destruct (String.eqb_spec (url h) siteUrl) as [-> | Hne].
  - unfold seed_delta.
    cbn [dapp d_trace d_events d_dispatch d_push d_visit dnil app].
    rewrite !pages_of_app, !elem_of_app. tauto.
  - assert (Hlist : url h ∈ subpage_list P siteUrl (visited_sitemap P siteUrl)).
    { unfold subpage_list, unvisited_str.
      apply list_elem_of_In, List.filter_In. split; [now apply list_elem_of_In|].
      apply negb_true_iff, bool_decide_eq_false.
      unfold visited_sitemap. rewrite add_result_spec. intros [Hin | Hin].
      - apply elem_of_unvisited in Hin as [Hin _]. contradiction.
      - unfold visited_seed in Hin.
        rewrite elem_of_union, elem_of_singleton, elem_of_empty in Hin.
        destruct Hin as [[= Heq] | []]. contradiction. }
    assert (Hbatches : url h ∈ pages_of
                         (d_trace (batches_delta P (robots_rules P siteUrl)
                                     (chunks 2 (subpage_list P siteUrl
                                                  (visited_sitemap P siteUrl)))))).
    { destruct (batches_trace P (robots_rules P siteUrl)
                  (chunks 2 (subpage_list P siteUrl (visited_sitemap P siteUrl))))
        as (_ & _ & ->).
      rewrite (chunks_concat 2 Nat.lt_0_2).
      apply list_elem_of_In, List.filter_In. split; [now apply list_elem_of_In | exact Hlet]. }
    assert (Hpos : (0 <? length (subpage_list P siteUrl (visited_sitemap P siteUrl)))
                   = true).
    { destruct (subpage_list P siteUrl (visited_sitemap P siteUrl));
        [now apply elem_of_nil in Hlist | reflexivity]. }
    unfold subpage_delta. rewrite Hpos.
    destruct (0 <? length (sitemap_list P siteUrl (visited_seed siteUrl)));
      cbn [dapp d_trace d_events d_dispatch d_push d_visit dnil app];
      rewrite ?app_nil_r, !pages_of_app, !elem_of_app; tauto.
Qed.

Lemma same_site_documents_on_site :
  exists hits st' evs,
    findAllergyPDFs twice_listed_site Site.seed initial = (Return hits, st') /\
    trace st' = evs /\
    Site.expected ∈ hits /\ Site.pdf ∈ pages_of evs.
Proof.
  assert (Hquiet : forall v, v ∈ sitemap_urls twice_listed_site Site.seed ->
                             v <> JStr Site.seed ->
                             ~ entry_throws twice_listed_site
                                 (robots_rules twice_listed_site Site.seed) v).
  { intros v Hv _.
    change (sitemap_urls twice_listed_site Site.seed)
      with [JStr Site.allergenPage; JStr Site.allergenPage] in Hv.
    assert (v = JStr Site.allergenPage) as ->.
    { repeat (apply elem_of_cons in Hv as [Hv | Hv]; [exact Hv|]).
      now apply elem_of_nil in Hv. }
    intros (_ & _ & err & Herr). discriminate. }
  destruct (same_site_documents_are_fetched_as_pages twice_listed_site Site.seed
              initial Hquiet) as (hits & st' & evs & Hrun & Htrace & Hall).
  exists hits, st', evs. split; [exact Hrun|]. split; [exact Htrace|].
  assert (Hin : Site.expected ∈ page_hits twice_listed_site Site.seed
                                  (robots_rules twice_listed_site Site.seed)).
  { change (page_hits twice_listed_site Site.seed
              (robots_rules twice_listed_site Site.seed))
      with (page_hits twice_listed_site Site.seed (Some Site.allowAll)).
    replace (page_hits twice_listed_site Site.seed (Some Site.allowAll))
      with [Site.expected] by (vm_compute; reflexivity).
    apply list_elem_of_here. }
  assert (Hnot : JStr (url Site.expected) ∉ sitemap_urls twice_listed_site Site.seed).
  { change (sitemap_urls twice_listed_site Site.seed)
      with [JStr Site.allergenPage; JStr Site.allergenPage].
    intros H. repeat (apply elem_of_cons in H as [H | H]; [discriminate|]).
    now apply elem_of_nil in H. }
  destruct (Hall Site.expected Hin eq_refl Hnot) as (H1 & _ & H2).
  split; [exact H1 | exact H2].
Defined.
